(** * PROGRAP/iterator: the chainable iterator wrapper of [lib/main.js]

    A shallow embedding of the wrapper object [Iterator] and of its
    methods, with the properties of its specification stated and settled
    against the embedded code.

    How the program is modelled:
    - a JavaScript value is a term of [value]; an object carries the
      address [loc] that decides [===] on it; numbers are NaN and the
      integers, which is all that elements, keys and indices need;
    - a running iterator (an array iterator, a suspended generator object)
      is a term of [gen]: resuming it on the current world stops, throws,
      or yields one element together with the suspended rest.  [gen] is
      inductive, so every source is finite and every loop over it ends;
    - the world [W] is whatever the user's callbacks and sources act on;
      the methods thread it through in the order the code performs the
      calls, and a method returns or throws ([M]);
    - user callbacks act on the world and return; leaving a [for ... of]
      loop early drops the iterator without running user code;
    - of the host, [Array.from] converts an argument without a usable
      [Symbol.iterator] method as an array-like, and Number::toString prints
      an integer from 1e21 on in exponent form; neither is part of this
      program: the first is the parameter [array_like] of [intoArray], the
      second the parameter [exponent_form] of [to_string]. *)

From Stdlib Require Import ZArith List String Ascii Bool Lia DecimalString.
Import ListNotations.
Open Scope string_scope.
Open Scope Z_scope.
Set Warnings "-register-all".

(** ** Values *)

(** Numbers that occur as elements and keys: [NaN] and the integers. *)
Inductive number : Type :=
| NaN
| Int (z : Z).

(** The address of an object; two objects are the same one when their
    addresses agree. *)
Definition loc := Z.

Inductive value : Type :=
| VUndefined
| VNull
| VBool (b : bool)
| VNumber (n : number)
| VString (s : string)
  (* an Array: iterable through Array.prototype[Symbol.iterator] *)
| VArray (l : loc) (items : list value)
  (* any other object: [symIter] is what a [Symbol.iterator] property found
     on it (own or inherited) holds, when there is one; the values of this
     type are data, so the property never holds a function *)
| VObject (l : loc) (symIter : option value) (fields : list (string * value)).

Inductive error : Type :=
| TypeError (msg : string).

Inductive result (A : Type) : Type :=
| Ok (a : A)
| Throw (e : error).
Arguments Ok {A} a.
Arguments Throw {A} e.

Definition num (z : Z) : value := VNumber (Int z).

(** ToBoolean *)
Definition truthy (v : value) : bool :=
  match v with
  | VUndefined | VNull => false
  | VBool b => b
  | VNumber NaN => false
  | VNumber (Int z) => negb (z =? 0)
  | VString s => negb (String.eqb s EmptyString)
  | VArray _ _ | VObject _ _ _ => true
  end.

(** [a === b] *)
Definition strict_eq (a b : value) : bool :=
  match a, b with
  | VUndefined, VUndefined => true
  | VNull, VNull => true
  | VBool x, VBool y => Bool.eqb x y
  | VNumber (Int x), VNumber (Int y) => x =? y
  | VString x, VString y => String.eqb x y
  | VArray l _, VArray l' _ => l =? l'
  | VObject l _ _, VObject l' _ _ => l =? l'
  | _, _ => false
  end.

(** SameValueZero, the key comparison of Map and Set. *)
Definition same_value_zero (a b : value) : bool :=
  match a, b with
  | VNumber NaN, VNumber NaN => true
  | _, _ => strict_eq a b
  end.

(** [a ?? b] *)
Definition nullish (v : value) : bool :=
  match v with
  | VUndefined | VNull => true
  | _ => false
  end.

Definition coalesce (a b : value) : value := if nullish a then b else a.

(** [index >= fromIndex] for an integer counter and a number. *)
Definition index_ge (index : Z) (fromIndex : number) : bool :=
  match fromIndex with
  | NaN => false
  | Int z => z <=? index
  end.

(** ToString, as property keys need it.  An integer below 1e21 prints in
    decimal; from 1e21 on the host prints an exponent form, which depends on
    the double the integer is: that is the host's [exponent_form]. *)
Definition string_of_Z (z : Z) : string := NilZero.string_of_int (Z.to_int z).

Definition number_to_string (exponent_form : Z -> string) (n : number)
  : string :=
  match n with
  | NaN => "NaN"
  | Int z => if Z.abs z <? 10 ^ 21 then string_of_Z z else exponent_form z
  end.

Fixpoint to_string (exponent_form : Z -> string) (v : value) : string :=
  match v with
  | VUndefined => "undefined"
  | VNull => "null"
  | VBool true => "true"
  | VBool false => "false"
  | VNumber n => number_to_string exponent_form n
  | VString s => s
  | VArray _ items =>
      (* Array.prototype.join: null and undefined print as nothing *)
      (fix join (l : list value) : string :=
         match l with
         | [] => EmptyString
         | x :: l' =>
             let sx := if nullish x then EmptyString
                       else to_string exponent_form x in
             match l' with
             | [] => sx
             | _ :: _ => sx ++ "," ++ join l'
             end
         end) items
  | VObject _ _ _ => "[object Object]"
  end.

(** ** Keyed stores

    The host keeps the properties of an object and the entries of a Map in
    insertion order; both are lists of pairs here, looked up with the
    store's own comparison of keys: string equality for property names,
    SameValueZero for Map keys. *)

Section Assoc.

Context {K : Type} (same : K -> K -> bool).

(** [o[key]], [map.get(key)]: [undefined] when there is no such key. *)
Fixpoint assoc_get (key : K) (m : list (K * value)) : value :=
  match m with
  | [] => VUndefined
  | (k, v) :: m' => if same k key then v else assoc_get key m'
  end.

(** CreateDataProperty, [map.set(key, v)]: overwrite in place, or append. *)
Fixpoint assoc_set (key : K) (v : value) (m : list (K * value))
  : list (K * value) :=
  match m with
  | [] => [(key, v)]
  | (k, x) :: m' =>
      if same k key then (k, v) :: m'
      else (k, x) :: assoc_set key v m'
  end.

(** The value under [key] when the store has the key: [map.has(key)] with
    [map.get(key)], [Object.hasOwn(o, key)] with [o[key]]. *)
Fixpoint assoc_find (key : K) (m : list (K * value)) : option value :=
  match m with
  | [] => None
  | (k, v) :: m' => if same k key then Some v else assoc_find key m'
  end.

(** Storing one pair. *)
Definition store (m : list (K * value)) (kv : K * value) : list (K * value) :=
  assoc_set (fst kv) (snd kv) m.

End Assoc.

(** The own property [name] of a record, [undefined] when it has none.
    This is [o[name]] for a name that Object.prototype does not define,
    as the names "0", "1" and "id" read below. *)
Definition get_field : string -> list (string * value) -> value :=
  assoc_get String.eqb.

(** [Object.hasOwn(o, name)] together with the value of the property. *)
Definition own_property : string -> list (string * value) -> option value :=
  assoc_find String.eqb.

(** An array index: the canonical decimal name of an integer from 0 to
    2^32 - 2.  The host keeps the properties named by array indices first,
    in ascending order, and the others after them in creation order. *)
Definition array_index (name : string) : option N :=
  match NilZero.uint_of_string name with
  | Some d =>
      let n := N.of_uint d in
      if String.eqb (string_of_Z (Z.of_N n)) name && (n <=? 4294967294)%N
      then Some n
      else None
  | None => None
  end.

(** A new property named by the array index [n]: after the smaller array
    indices, before everything else. *)
Fixpoint insert_index (n : N) (name : string) (v : value)
  (fields : list (string * value)) : list (string * value) :=
  match fields with
  | [] => [(name, v)]
  | (k, x) :: fields' =>
      match array_index k with
      | Some m =>
          if (m <? n)%N then (k, x) :: insert_index n name v fields'
          else (name, v) :: fields
      | None => (name, v) :: fields
      end
  end.

(** CreateDataProperty on an ordinary object whose own properties are
    [fields], in the host's order: an existing property is overwritten in
    place, a new one takes its place in the order. *)
Definition define_property (name : string) (v : value)
  (fields : list (string * value)) : list (string * value) :=
  if existsb (fun kv => String.eqb (fst kv) name) fields
  then assoc_set String.eqb name v fields
  else
    match array_index name with
    | Some n => insert_index n name v fields
    | None => (fields ++ [(name, v)])%list
    end.

(** [item[i]] for the indices an entry is read at. *)
Definition get_index (item : value) (i : nat) : value :=
  match item with
  | VArray _ items => nth i items VUndefined
  | VObject _ _ fields => get_field (string_of_Z (Z.of_nat i)) fields
  | _ => VUndefined
  end.

Definition is_object (v : value) : bool :=
  match v with
  | VArray _ _ | VObject _ _ _ => true
  | _ => false
  end.

(** ** The host's Map: entries in insertion order, keys up to SameValueZero *)

Definition jsmap : Type := list (value * value).

Definition map_get : value -> jsmap -> value := assoc_get same_value_zero.

Definition map_set : value -> value -> jsmap -> jsmap :=
  assoc_set same_value_zero.

(** [map.has(key)] together with [map.get(key)]. *)
Definition map_find : value -> jsmap -> option value :=
  assoc_find same_value_zero.

Definition map_values (m : jsmap) : list value := List.map snd m.

(** ** Iterators and generators *)

(** A suspended iterator over the world [W].  [resume] is one call of its
    [next()]: the iterator stops, throws, or yields one element and
    suspends again as [rest]. *)
Inductive gen (W : Type) : Type :=
| Gen (resume : W -> step W)
with step (W : Type) : Type :=
| Stop (w : W)
| Yield (w : W) (item : value) (rest : gen W)
| Raise (w : W) (e : error).
Arguments Gen {W} resume.
Arguments Stop {W} w.
Arguments Yield {W} w item rest.
Arguments Raise {W} w e.

Definition resume {W} (g : gen W) : W -> step W :=
  match g with Gen r => r end.

Scheme gen_step_ind := Induction for gen Sort Prop
  with step_gen_ind := Induction for step Sort Prop.

(** A user callback [(item, index) => ...]: it acts on the world and
    returns a value. *)
Definition callback (W : Type) : Type := value -> Z -> W -> W * value.

(** Computations of the methods: they act on the world, and return or throw. *)
Definition M (W A : Type) : Type := W -> W * result A.

Definition ret {W A} (a : A) : M W A := fun w => (w, Ok a).
Definition throw {W A} (e : error) : M W A := fun w => (w, Throw e).
Definition bind {W A B} (m : M W A) (k : A -> M W B) : M W B :=
  fun w =>
    match m w with
    | (w1, Ok a) => k a w1
    | (w1, Throw e) => (w1, Throw e)
    end.
Definition lift {W A} (r : result A) : M W A := fun w => (w, r).

Notation "x <- m ;; k" := (bind m (fun x => k))
  (at level 100, m at next level, right associativity).

(** The iterator of an Array. *)
Fixpoint array_iter {W} (items : list value) : gen W :=
  Gen (fun w =>
    match items with
    | [] => Stop w
    | x :: items' => Yield w x (array_iter items')
    end).

(** What [this.ref] can hold: a value, or an iterable object given by the
    iterator it hands out (a generator object hands out itself). *)
Inductive jsref (W : Type) : Type :=
| RVal (v : value)
| RGen (g : gen W).
Arguments RVal {W} v.
Arguments RGen {W} g.

Record Wrapper (W : Type) : Type := { ref : jsref W }.
Arguments Build_Wrapper {W} ref.
Arguments ref {W} w.

Definition in_operand_error : error :=
  TypeError "Cannot use 'in' operator to search for 'Symbol(Symbol.iterator)' in a primitive".

Definition not_iterable : error := TypeError "value is not iterable".

Definition not_an_entry : error := TypeError "Iterator value is not an entry object".

Definition not_a_function : error := TypeError "Symbol.iterator is not a function".

(** ** The host's Set: members in insertion order, up to SameValueZero *)

Definition jsset : Type := list value.

(** [set.add(v)] *)
Fixpoint set_add (v : value) (s : jsset) : jsset :=
  match s with
  | [] => [v]
  | x :: s' => if same_value_zero x v then s else x :: set_add v s'
  end.

(** [Symbol.iterator in value]: a TypeError on anything that is not an
    object, else whether the property is found on the object. *)
Definition symbol_iterator_in {W} (value : jsref W) : result bool :=
  match value with
  | RGen _ => Ok true
  | RVal (VArray _ _) => Ok true
  | RVal (VObject _ (Some _) _) => Ok true
  | RVal (VObject _ None _) => Ok false
  | RVal _ => Throw in_operand_error
  end.

(** lib/main.js, 6-8
<<
const isIterator = function(value) {
    return (Symbol.iterator in value);
};
>> *)
Definition isIterator {W} (value : jsref W) : result bool :=
  symbol_iterator_in value.

(** The characters a string iterates over. *)
Definition string_items (s : string) : list value :=
  List.map (fun c => VString (String c EmptyString)) (list_ascii_of_string s).

(** GetIterator, the first step of [for (... of r)]: calls
    [r[Symbol.iterator]()], a TypeError when that is not a function. *)
Definition get_iterator {W} (r : jsref W) : result (gen W) :=
  match r with
  | RGen g => Ok g
  | RVal (VArray _ items) => Ok (array_iter items)
  | RVal (VString s) => Ok (array_iter (string_items s))
  | RVal _ => Throw not_iterable
  end.

(** A generator object whose body is [for (const item of r) { ... }]:
    nothing runs before the first [next()]. *)
Definition for_of {W} (r : jsref W) (body : gen W -> gen W) : gen W :=
  Gen (fun w =>
    match get_iterator r with
    | Throw e => Raise w e
    | Ok it => resume (body it) w
    end).

(** [for (const x of g) yield x;] and then go on as [k]. *)
Fixpoint yield_all {W} (g : gen W) (k : gen W) : gen W :=
  match g with
  | Gen r =>
      Gen (fun w =>
        match r w with
        | Stop w1 => resume k w1
        | Raise w1 e => Raise w1 e
        | Yield w1 x rest => Yield w1 x (yield_all rest k)
        end)
  end.

(** Draining an iterator to its end, as spreading does. *)
Fixpoint drain {W} (it : gen W) (w : W) : W * result (list value) :=
  match it with
  | Gen r =>
      match r w with
      | Stop w1 => (w1, Ok [])
      | Raise w1 e => (w1, Throw e)
      | Yield w1 item rest =>
          match drain rest w1 with
          | (w2, Ok items) => (w2, Ok (item :: items))
          | (w2, Throw e) => (w2, Throw e)
          end
      end
  end.

(** ** The wrapper object *)

Module Iterator.

(** lib/main.js, 306-312
<<
    new(value) {
        if (!isIterator(value)) {
            throw new TypeError('value is does not implement iterator!');
        }
        return { ref: value, __proto__: this };
    },
>> *)
Definition InvalidArgument : error :=
  TypeError "value is does not implement iterator!".

Definition new {W} (value : jsref W) : M W (Wrapper W) :=
  present <- lift (isIterator value) ;;
  if negb present then throw InvalidArgument
  else ret {| ref := value |}.

(** lib/main.js, 60-62: the wrapper's own iteration,
<<
    get [Symbol.iterator]() {
        return this.ref[Symbol.iterator].bind(this.ref);
    },
>>
    followed by the call of the bound method. *)
Definition symbol_iterator {W} (this : Wrapper W) : result (gen W) :=
  get_iterator (ref this).

(** [[...this]]: every element the wrapper yields, in order. *)
Definition spread {W} (this : Wrapper W) : M W (list value) :=
  it <- lift (symbol_iterator this) ;; drain it.

(** lib/main.js, 79-87
<<
    *rawMap(lambda) {
        let index = 0;
        for (const item of this.ref) {
            yield lambda(item, index);
            index += 1;
        }
    },
>> *)
Fixpoint rawMap_loop {W} (lambda : callback W) (index : Z) (it : gen W)
  : gen W :=
  match it with
  | Gen r =>
      Gen (fun w =>
        match r w with
        | Stop w1 => Stop w1
        | Raise w1 e => Raise w1 e
        | Yield w1 item rest =>
            let (w2, y) := lambda item index w1 in
            Yield w2 y (rawMap_loop lambda (index + 1) rest)
        end)
  end.

Definition rawMap {W} (lambda : callback W) (this : Wrapper W) : gen W :=
  for_of (ref this) (rawMap_loop lambda 0).

(** lib/main.js, 72-74 *)
Definition map {W} (lambda : callback W) (this : Wrapper W)
  : M W (Wrapper W) :=
  new (RGen (rawMap lambda this)).

(** lib/main.js, 94-102
<<
    forEach(lambda) {
        let index = 0;
        for (const item of this.ref) {
            lambda(item, index);
            index += 1;
        }
    },
>> *)
Fixpoint forEach_loop {W} (lambda : callback W) (index : Z) (it : gen W)
  (w : W) : W * result unit :=
  match it with
  | Gen r =>
      match r w with
      | Stop w1 => (w1, Ok tt)
      | Raise w1 e => (w1, Throw e)
      | Yield w1 item rest =>
          let (w2, _) := lambda item index w1 in
          forEach_loop lambda (index + 1) rest w2
      end
  end.

Definition forEach {W} (lambda : callback W) (this : Wrapper W) : M W unit :=
  it <- lift (get_iterator (ref this)) ;; forEach_loop lambda 0 it.

(** lib/main.js, 119-133
<<
    *rawFilter(lambda) {
        let index = 0;
        for (const item of this.ref) {
            const keep = lambda(item, index);
            index += 1;
            if (!keep) { continue; }
            yield item;
        }
    },
>> *)
Fixpoint rawFilter_next {W} (lambda : callback W) (index : Z) (it : gen W)
  (w : W) : step W :=
  match it with
  | Gen r =>
      match r w with
      | Stop w1 => Stop w1
      | Raise w1 e => Raise w1 e
      | Yield w1 item rest =>
          let (w2, keep) := lambda item index w1 in
          let index := index + 1 in
          if negb (truthy keep) then rawFilter_next lambda index rest w2
          else Yield w2 item (Gen (rawFilter_next lambda index rest))
      end
  end.

Definition rawFilter {W} (lambda : callback W) (this : Wrapper W) : gen W :=
  for_of (ref this) (fun it => Gen (rawFilter_next lambda 0 it)).

(** lib/main.js, 112-114 *)
Definition filter {W} (lambda : callback W) (this : Wrapper W)
  : M W (Wrapper W) :=
  new (RGen (rawFilter lambda this)).

(** lib/main.js, 144-154
<<
    reduce(lambda, initial) {
        let index = 0;
        for (const item of this.ref) {
            initial = lambda(initial, item, index);
            index += 1;
        }
        return initial;
    },
>> *)
Fixpoint reduce_loop {W A} (lambda : A -> value -> Z -> W -> W * A)
  (initial : A) (index : Z) (it : gen W) (w : W) : W * result A :=
  match it with
  | Gen r =>
      match r w with
      | Stop w1 => (w1, Ok initial)
      | Raise w1 e => (w1, Throw e)
      | Yield w1 item rest =>
          let (w2, initial) := lambda initial item index w1 in
          reduce_loop lambda initial (index + 1) rest w2
      end
  end.

Definition reduce {W A} (lambda : A -> value -> Z -> W -> W * A)
  (initial : A) (this : Wrapper W) : M W A :=
  it <- lift (get_iterator (ref this)) ;; reduce_loop lambda initial 0 it.

(** lib/main.js, 164-176
<<
    find(lambda) {
        let index = -1;
        for (const item of this.ref) {
            index += 1;
            if (!lambda(item, index)) { continue; }
            return item;
        }
    },
>> *)
Fixpoint find_loop {W} (lambda : callback W) (index : Z) (it : gen W) (w : W)
  : W * result value :=
  match it with
  | Gen r =>
      match r w with
      | Stop w1 => (w1, Ok VUndefined)
      | Raise w1 e => (w1, Throw e)
      | Yield w1 item rest =>
          let index := index + 1 in
          let (w2, found) := lambda item index w1 in
          if negb (truthy found) then find_loop lambda index rest w2
          else (w2, Ok item)
      end
  end.

Definition find {W} (lambda : callback W) (this : Wrapper W) : M W value :=
  it <- lift (get_iterator (ref this)) ;; find_loop lambda (-1) it.

(** lib/main.js, 185-197
<<
    findIndex(lambda) {
        let index = -1;
        for (const item of this.ref) {
            index += 1;
            if (!lambda(item, index)) { continue; }
            return index;
        }
    },
>> *)
Fixpoint findIndex_loop {W} (lambda : callback W) (index : Z) (it : gen W)
  (w : W) : W * result value :=
  match it with
  | Gen r =>
      match r w with
      | Stop w1 => (w1, Ok VUndefined)
      | Raise w1 e => (w1, Throw e)
      | Yield w1 item rest =>
          let index := index + 1 in
          let (w2, found) := lambda item index w1 in
          if negb (truthy found) then findIndex_loop lambda index rest w2
          else (w2, Ok (num index))
      end
  end.

Definition findIndex {W} (lambda : callback W) (this : Wrapper W)
  : M W value :=
  it <- lift (get_iterator (ref this)) ;; findIndex_loop lambda (-1) it.

(** lib/main.js, 208-212
<<
    includes(value, fromIndex = 0) {
        return !!this.find((item, index) => {
            return item === value && index >= fromIndex;
        });
    },
>> *)
Definition includes {W} (value : value) (fromIndex : number)
  (this : Wrapper W) : M W bool :=
  found <- find (fun item index w =>
             (w, VBool (strict_eq item value && index_ge index fromIndex)))
           this ;;
  ret (truthy found).

(** lib/main.js, 271-273 *)
Definition some {W} (lambda : callback W) (this : Wrapper W) : M W bool :=
  found <- find lambda this ;; ret (truthy found).

(** lib/main.js, 240-261
<<
    *rawFlat(depth = 1) {
        for (const item of this.ref) {
            if (depth === 0) { yield item; continue; }
            if (!isIterator(item)) { yield item; continue; }
            const innerIter = Iterator.new(item);
            for (const inner of innerIter.rawFlat(depth - 1)) {
                yield inner;
            }
        }
    },
>>
    [depth] ranges over the non-negative integers of the interface. *)
Fixpoint rawFlat {W} (depth : nat) (this : Wrapper W) {struct depth} : gen W :=
  for_of (ref this)
    (fix loop (it : gen W) : gen W :=
       match it with
       | Gen r =>
           Gen (fun w =>
             match r w with
             | Stop w1 => Stop w1
             | Raise w1 e => Raise w1 e
             | Yield w1 item rest =>
                 match depth with
                 | O => Yield w1 item (loop rest)
                 | S depth' =>
                     match isIterator (W := W) (RVal item) with
                     | Throw e => Raise w1 e
                     | Ok false => Yield w1 item (loop rest)
                     | Ok true =>
                         match new (RVal item) w1 with
                         | (w2, Throw e) => Raise w2 e
                         | (w2, Ok innerIter) =>
                             resume
                               (yield_all (rawFlat depth' innerIter)
                                          (loop rest)) w2
                         end
                     end
                 end
             end)
       end).

(** lib/main.js, 221-223 *)
Definition flat {W} (depth : nat) (this : Wrapper W) : M W (Wrapper W) :=
  new (RGen (rawFlat depth this)).

(** lib/main.js, 233-235 *)
Definition flatMap {W} (lambda : callback W) (depth : nat)
  (this : Wrapper W) : M W (Wrapper W) :=
  mapped <- map lambda this ;; flat depth mapped.

(** lib/main.js, 283-300
<<
    dedupe(identify = item => item, merge = existing => existing) {
        const map = this.reduce((map, next) => {
            const id = identify(next);
            const existing = map.get(id);
            if (existing ?? true) {
                map.set(id, next);
                return map;
            }
            map.set(id, merge(existing, next) ?? existing);
            return map;
        }, new Map());
        return Iterator.new(map.values());
    },
>> *)
Definition dedupe_step {W} (identify : value -> W -> W * value)
  (merge : value -> value -> W -> W * value)
  (map : jsmap) (next : value) (index : Z) (w : W) : W * jsmap :=
  let (w1, id) := identify next w in
  let existing := map_get id map in
  if truthy (coalesce existing (VBool true)) then (w1, map_set id next map)
  else
    let (w2, merged) := merge existing next w1 in
    (w2, map_set id (coalesce merged existing) map).

Definition dedupe {W} (identify : value -> W -> W * value)
  (merge : value -> value -> W -> W * value) (this : Wrapper W)
  : M W (Wrapper W) :=
  map <- reduce (dedupe_step identify merge) [] this ;;
  new (RGen (array_iter (map_values map))).

(** The default arguments [item => item] and [existing => existing]. *)
Definition default_identify {W} : value -> W -> W * value :=
  fun item w => (w, item).
Definition default_merge {W} : value -> value -> W -> W * value :=
  fun existing _ w => (w, existing).

(** lib/main.js, 337-339: [new Map(this.ref)].  The constructor reads each
    item as an entry, [item[0]] the key and [item[1]] the value. *)
Fixpoint Map_add_entries {W} (it : gen W) (m : jsmap) (w : W)
  : W * result jsmap :=
  match it with
  | Gen r =>
      match r w with
      | Stop w1 => (w1, Ok m)
      | Raise w1 e => (w1, Throw e)
      | Yield w1 item rest =>
          if is_object item
          then Map_add_entries rest
                 (map_set (get_index item 0) (get_index item 1) m) w1
          else (w1, Throw not_an_entry)
      end
  end.

Definition intoMap {W} (this : Wrapper W) : M W jsmap :=
  match ref this with
  | RVal VUndefined | RVal VNull => ret []
  | r => it <- lift (get_iterator r) ;; Map_add_entries it []
  end.

(** lib/main.js, 346-348: [Object.fromEntries(this.ref)].  As for a Map,
    with the key coerced to a property name and the entry defined as an
    own property; the result is the own properties of the new object in the
    host's order. *)
Fixpoint Object_add_entries {W} (exponent_form : Z -> string) (it : gen W)
  (fields : list (string * value)) (w : W)
  : W * result (list (string * value)) :=
  match it with
  | Gen r =>
      match r w with
      | Stop w1 => (w1, Ok fields)
      | Raise w1 e => (w1, Throw e)
      | Yield w1 item rest =>
          if is_object item
          then Object_add_entries exponent_form rest
                 (define_property (to_string exponent_form (get_index item 0))
                    (get_index item 1) fields) w1
          else (w1, Throw not_an_entry)
      end
  end.

Definition intoObject {W} (exponent_form : Z -> string) (this : Wrapper W)
  : M W (list (string * value)) :=
  it <- lift (get_iterator (ref this)) ;;
  Object_add_entries exponent_form it [].

(** lib/main.js, 319-321: [Array.from(this.ref)].  Array.from looks the
    [Symbol.iterator] method up on its argument and iterates it when there
    is one; when the property is absent, undefined or null the argument is
    converted as an array-like, which is the host's [array_like]; any other
    value under the property is a TypeError. *)
Definition intoArray {W} (array_like : value -> result (list value))
  (this : Wrapper W) : M W (list value) :=
  match ref this with
  | RGen g => drain g
  | RVal (VArray _ items) => drain (array_iter items)
  | RVal (VString s) => drain (array_iter (string_items s))
  | RVal VUndefined | RVal VNull => throw not_iterable
  | RVal (VObject _ (Some held) _ as v) =>
      if nullish held then lift (array_like v) else throw not_a_function
  | RVal v => lift (array_like v)
  end.

(** lib/main.js, 328-330: [new Set(this.ref)]. *)
Fixpoint Set_add_values {W} (it : gen W) (s : jsset) (w : W)
  : W * result jsset :=
  match it with
  | Gen r =>
      match r w with
      | Stop w1 => (w1, Ok s)
      | Raise w1 e => (w1, Throw e)
      | Yield w1 item rest => Set_add_values rest (set_add item s) w1
      end
  end.

Definition intoSet {W} (this : Wrapper W) : M W jsset :=
  match ref this with
  | RVal VUndefined | RVal VNull => ret []
  | r => it <- lift (get_iterator r) ;; Set_add_values it []
  end.

End Iterator.

(** ** Vocabulary of the properties *)

(** The wrapper [Iterator.new] returns for the array [items] at address [l]. *)
Definition wrap_array {W} (l : loc) (items : list value) : Wrapper W :=
  {| ref := RVal (VArray l items) |}.

(** A callback without effects. *)
Definition pure_callback {W} (f : value -> Z -> value) : callback W :=
  fun item index w => (w, f item index).

(** The source elements paired with their source positions, from [index]. *)
Fixpoint with_index (index : Z) (items : list value) : list (value * Z) :=
  match items with
  | [] => []
  | x :: items' => (x, index) :: with_index (index + 1) items'
  end.

(** A callback that records each of its invocations in the world. *)
Definition recording (f : value -> Z -> value) : callback (list (value * Z)) :=
  fun item index log => ((log ++ [(item, index)])%list, f item index).

(** Whether [f] answers truthy on the invocation [c]. *)
Definition hit (f : value -> Z -> value) (c : value * Z) : bool :=
  truthy (f (fst c) (snd c)).

(** The invocations on which [f] answered truthy. *)
Definition accepted (f : value -> Z -> value) (calls : list (value * Z))
  : list (value * Z) :=
  List.filter (hit f) calls.

(** What a run of [filter] reports for the elements it keeps: the
    invocations of the recording predicate that answered truthy, read off
    the world once the stage is drained. *)
Definition filter_report (f : value -> Z -> value) (l : loc)
  (items : list value) : list (value * Z) :=
  accepted f
    (fst ((kept <- Iterator.filter (recording f) (wrap_array l items) ;;
           Iterator.spread kept) [])).

(** What a traced run observes: an element leaving the source, and an
    invocation of the map callback. *)
Inductive event : Type :=
| Pulled (item : value)
| Called (item : value) (index : Z).

(** A one-shot source that records each element it hands out. *)
Fixpoint traced_source (items : list value) : gen (list event) :=
  Gen (fun log =>
    match items with
    | [] => Stop log
    | x :: items' => Yield (log ++ [Pulled x])%list x (traced_source items')
    end).

Definition traced_callback (f : value -> Z -> value) : callback (list event) :=
  fun item index log => ((log ++ [Called item index])%list, f item index).

(** The source elements a search over the mapped sequence needs: those up to
    and including the first whose image satisfies [p]. *)
Fixpoint needed (f p : value -> Z -> value) (index : Z) (items : list value)
  : list value :=
  match items with
  | [] => []
  | x :: items' =>
      if truthy (p (f x index) index) then [x]
      else x :: needed f p (index + 1) items'
  end.

(** The image of a source element at its position. *)
Definition image_at (f : value -> Z -> value) (c : value * Z) : value :=
  f (fst c) (snd c).

Definition events_of (calls : list (value * Z)) : list event :=
  List.flat_map (fun c => [Pulled (fst c); Called (fst c) (snd c)]) calls.

(** A value exposes the iteration capability when [for (... of v)] can
    obtain an iterator from it. *)
Definition exposes_iteration {W} (r : jsref W) : bool :=
  match get_iterator r with
  | Ok _ => true
  | Throw _ => false
  end.

Definition is_primitive (v : value) : bool := negb (is_object v).

Definition is_object_ref {W} (r : jsref W) : bool :=
  match r with
  | RGen _ => true
  | RVal v => is_object v
  end.

Definition is_string_ref {W} (r : jsref W) : bool :=
  match r with
  | RVal (VString _) => true
  | _ => false
  end.

(** Whether a property [Symbol.iterator] is found on the value: own or
    inherited for an object, on String.prototype for a string. *)
Definition has_symbol_iterator {W} (r : jsref W) : bool :=
  match r with
  | RGen _ => true
  | RVal (VArray _ _) => true
  | RVal (VString _) => true
  | RVal (VObject _ (Some _) _) => true
  | RVal _ => false
  end.

(** An object whose [Symbol.iterator] property holds the number 5. *)
Definition fake_iterable : value := VObject 400 (Some (num 5)) [].



(** The nested source of the flatten example with records as leaves. *)
Definition leaf (l : loc) : value := VObject l None [].
Definition nested_records : value :=
  VArray 100 [leaf 1; VArray 101 [leaf 2; VArray 102 [leaf 3; VArray 103 [leaf 4]]]].

(** An error of the kind TypeError, whatever its message. *)
Definition raises_TypeError {W A} (out : W * result A) : Prop :=
  exists msg, snd out = Throw (TypeError msg).

(** An array [[key, value]] at an address. *)
Definition entry_array (e : loc * (value * value)) : value :=
  VArray (fst e) [fst (snd e); snd (snd e)].

Section AssocVocabulary.

Context {K : Type} (same : K -> K -> bool).

(** No two keys that the store would identify. *)
Fixpoint distinct (keys : list K) : bool :=
  match keys with
  | [] => true
  | k :: keys' => negb (existsb (same k) keys') && distinct keys'
  end.

(** The value of the last pair stored under [key]. *)
Definition last_stored (key : K) (pairs : list (K * value)) : value :=
  match List.find (fun kv => same (fst kv) key) (rev pairs) with
  | Some kv => snd kv
  | None => VUndefined
  end.

(** The keys in the order of their first occurrence. *)
Definition see (seen : list K) (k : K) : list K :=
  if existsb (fun s => same s k) seen then seen else (seen ++ [k])%list.

Definition first_seen (keys : list K) : list K := fold_left see keys [].

End AssocVocabulary.

(** The entry with its key coerced to a property name. *)
Definition named (exponent_form : Z -> string) (kv : value * value)
  : string * value :=
  (to_string exponent_form (fst kv), snd kv).

(** Defining one entry as an own property. *)
Definition define (fields : list (string * value)) (kv : string * value)
  : list (string * value) :=
  define_property (fst kv) (snd kv) fields.



(** An entry list that mixes names and array indices. *)
Definition pair_b1 : loc * (value * value) := (311, (VString "b", num 1)).
Definition pair_22 : loc * (value * value) := (312, (VString "2", num 2)).
Definition pair_13 : loc * (value * value) := (313, (VNumber (Int 1), num 3)).

(** What tells two Map keys apart: SameValueZero holds exactly between
    values of the same class. *)
Inductive key_class : Type :=
| KUndefined
| KNull
| KBool (b : bool)
| KNaN
| KInt (z : Z)
| KString (s : string)
| KArray (l : loc)
| KObject (l : loc).

Definition key_of (v : value) : key_class :=
  match v with
  | VUndefined => KUndefined
  | VNull => KNull
  | VBool b => KBool b
  | VNumber NaN => KNaN
  | VNumber (Int z) => KInt z
  | VString s => KString s
  | VArray l _ => KArray l
  | VObject l _ _ => KObject l
  end.

(** The sources of the specification's examples. *)
Definition nested_numbers : value :=
  VArray 100 [num 1; VArray 101 [num 2; VArray 102 [num 3; VArray 103 [num 4]]]].

Definition item_a : value := VObject 201 None [("id", num 1); ("v", VString "a")].
Definition item_b : value := VObject 202 None [("id", num 2); ("v", VString "b")].
Definition item_c : value := VObject 203 None [("id", num 1); ("v", VString "c")].

(** [x => x.id] *)
Definition identify_id {W} : value -> W -> W * value :=
  fun x w =>
    (w, match x with
        | VObject _ _ fields => get_field "id" fields
        | _ => VUndefined
        end).

Definition pair_a : loc * (value * value) := (301, (VString "a", num 1)).
Definition pair_b : loc * (value * value) := (302, (VString "b", num 2)).

(** Evenness of a number element. *)
Definition is_even (item : value) (index : Z) : value :=
  match item with
  | VNumber (Int z) => VBool (Z.even z)
  | _ => VBool false
  end.

(** Keeps the elements 20 and 40. *)
Definition is_20_or_40 (item : value) (index : Z) : value :=
  VBool (strict_eq item (num 20) || strict_eq item (num 40)).

(** What a search over a filtered source costs and finds: the calls of the
    filter's predicate, on the source elements up to and including the first
    one that the filter keeps and the search accepts, and that element.
    [i] counts the source elements, [j] the kept ones. *)
Fixpoint filter_search (q p : value -> Z -> value) (i j : Z)
  (items : list value) : list (value * Z) * value :=
  match items with
  | [] => ([], VUndefined)
  | x :: items' =>
      if truthy (q x i) then
        if truthy (p x j) then ([(x, i)], x)
        else ((x, i) :: fst (filter_search q p (i + 1) (j + 1) items'),
              snd (filter_search q p (i + 1) (j + 1) items'))
      else ((x, i) :: fst (filter_search q p (i + 1) j items'),
            snd (filter_search q p (i + 1) j items'))
  end.

(** One outcome after the other: the elements yielded until the first
    failure, and that failure. *)
Fixpoint chain (outs : list (list value * option error))
  : list value * option error :=
  match outs with
  | [] => ([], None)
  | (ys, Some e) :: _ => (ys, Some e)
  | (ys, None) :: outs' => ((ys ++ fst (chain outs'))%list, snd (chain outs'))
  end.

(** What one element of the source contributes to a flatten stage of depth
    [depth]: the elements it yields, and the error that ends the stage if
    handling it fails. *)
Fixpoint flat_item (depth : nat) (item : value) : list value * option error :=
  match depth with
  | O => ([item], None)
  | S depth' =>
      match item with
      | VArray _ inner => chain (List.map (flat_item depth') inner)
      | VObject _ None _ => ([item], None)
      | VObject _ (Some _) _ => ([], Some not_iterable)
      | _ => ([], Some in_operand_error)
      end
  end.

(** A source element as a search over a flatten stage meets it: what
    handing it out records, and the value handed to the stage. *)
Definition row : Type := list event * value.

Definition pulled_rows (items : list value) : list row :=
  List.map (fun x => ([Pulled x], x)) items.

Definition mapped_rows (f : value -> Z -> value) (index : Z)
  (items : list value) : list row :=
  List.map (fun c => ([Pulled (fst c); Called (fst c) (snd c)],
                      f (fst c) (snd c)))
    (with_index index items).

(** What a search over a flatten stage costs and finds: the records of the
    source elements up to and including the first one whose contribution
    holds an accepted element or fails, and the outcome.  [index] is the
    position of the next flattened element. *)
Fixpoint flat_search (p : value -> Z -> value) (depth : nat) (index : Z)
  (rows : list row) : list event * result value :=
  match rows with
  | [] => ([], Ok VUndefined)
  | (events, y) :: rows' =>
      match List.find (hit p) (with_index index (fst (flat_item depth y))) with
      | Some c => (events, Ok (fst c))
      | None =>
          match snd (flat_item depth y) with
          | Some e => (events, Throw e)
          | None =>
              let later :=
                flat_search p depth
                  (index + Z.of_nat (List.length (fst (flat_item depth y))))
                  rows' in
              ((events ++ fst later)%list, snd later)
          end
      end
  end.

(** A generator that yields [ys] without touching the world, then stops,
    or fails with [e]. *)
Fixpoint yields {W} (ys : list value) (e : option error) (g : gen W) : Prop :=
  forall w,
    match ys with
    | [] =>
        resume g w = match e with
                     | None => Stop w
                     | Some err => Raise w err
                     end
    | y :: ys' => exists rest, resume g w = Yield w y rest /\ yields ys' e rest
    end.

(** A source that hands out the values of [rows], recording each row's
    events as it does, then stops. *)
Fixpoint emits (rows : list row) (g : gen (list event)) : Prop :=
  forall log,
    match rows with
    | [] => resume g log = Stop log
    | (events, y) :: rows' =>
        exists rest,
          resume g log = Yield (log ++ events)%list y rest /\ emits rows' rest
    end.

(** The outcome [out] with [k] applied to the elements it holds; a failure
    stays as it is. *)
Definition on_elements {W} (out : W * result (list value))
  (k : list value -> list value) : W * result (list value) :=
  (fst out,
   match snd out with
   | Ok items => Ok (k items)
   | Throw e => Throw e
   end).

(** A source that hands out [items] and then fails with [e]. *)
Fixpoint failing_source {W} (items : list value) (e : error) : gen W :=
  Gen (fun w =>
    match items with
    | [] => Raise w e
    | x :: items' => Yield w x (failing_source items' e)
    end).

Definition is_array (v : value) : bool :=
  match v with
  | VArray _ _ => true
  | _ => false
  end.

Definition array_items (v : value) : list value :=
  match v with
  | VArray _ items => items
  | _ => []
  end.

(** An object on which no [Symbol.iterator] property is found. *)
Definition is_record (v : value) : bool :=
  match v with
  | VObject _ None _ => true
  | _ => false
  end.

(** What [flat(1)] makes of one element: an array gives its elements, a
    record stays. *)
Definition one_level (item : value) : list value :=
  if is_array item then array_items item else [item].

(** An [identify] function without effects, and the items under their keys. *)
Definition identify_by {W} (key : value -> value) : value -> W -> W * value :=
  fun item w => (w, key item).

Definition keyed (key : value -> value) (items : list value)
  : list (value * value) :=
  List.map (fun item => (key item, item)) items.

(** Falsy, and neither [undefined] nor [null]: false, 0, NaN and the empty
    string. *)
Definition falsy_defined (v : value) : bool :=
  negb (truthy v) && negb (nullish v).

(** An item stored under itself. *)
Definition under_itself (item : value) : value * value := (item, item).

(** An entry whose key is a string. *)
Definition has_string_key (kv : value * value) : bool :=
  match fst kv with
  | VString _ => true
  | _ => false
  end.

(** [x => x === v] *)
Definition equals (v : value) (item : value) (index : Z) : value :=
  VBool (strict_eq item v).

(** The element at a position, [undefined] past the end. *)
Definition element_at (items : list value) (index : Z) : value :=
  nth (Z.to_nat index) items VUndefined.

Open Scope list_scope.

(** ** Facts about values *)

Lemma strict_eq_truthy (a b : value) :
  strict_eq a b = true -> truthy a = truthy b.
Proof.
  destruct a as [| |x|[|x]|x|l xs|l s f], b as [| |y|[|y]|y|l' ys|l' s' f'];
    simpl; try discriminate; try reflexivity; intros H.
  - apply Bool.eqb_prop in H. now subst.
  - apply Z.eqb_eq in H. now subst.
  - apply String.eqb_eq in H. now subst.
Qed.

Lemma strict_eq_NaN (a : value) : strict_eq a (VNumber NaN) = false.
Proof. destruct a as [| |x|[|x]|x|l xs|l s f]; reflexivity. Qed.

Lemma with_index_fst (items : list value) :
  forall index, List.map fst (with_index index items) = items.
Proof.
  induction items as [|x items IH]; intros index; simpl.
  - reflexivity.
  - now rewrite IH.
Qed.

Lemma with_index_app (xs ys : list value) :
  forall index,
    with_index index (xs ++ ys)
    = with_index index xs ++ with_index (index + Z.of_nat (List.length xs)) ys.
Proof.
  induction xs as [|x xs IH]; intros index; simpl.
  - now rewrite Z.add_0_r.
  - rewrite IH. do 3 f_equal. lia.
Qed.

Lemma find_skip {A} (f : A -> bool) (l1 l2 : list A) :
  existsb f l1 = false -> List.find f (l1 ++ l2) = List.find f l2.
Proof.
  induction l1 as [|a l1 IH]; simpl; intros H.
  - reflexivity.
  - apply orb_false_elim in H. destruct H as [Ha Hl]. rewrite Ha. now apply IH.
Qed.

Lemma find_existsb {A} (f : A -> bool) (l : list A) :
  existsb f l = match List.find f l with Some _ => true | None => false end.
Proof.
  induction l as [|a l IH]; simpl.
  - reflexivity.
  - destruct (f a); simpl; [reflexivity | exact IH].
Qed.

(** ** The searches over an array, with a callback that has no effects *)

Section Searches.

Context {W : Type}.
Variable p : value -> Z -> value.

Lemma find_loop_pure (items : list value) :
  forall (index : Z) (w : W),
    Iterator.find_loop (pure_callback p) index (array_iter items) w
    = (w, Ok match List.find (hit p) (with_index (index + 1) items) with
             | Some c => fst c
             | None => VUndefined
             end).
Proof.
  induction items as [|x items IH]; intros index w.
  - reflexivity.
  - simpl. unfold hit at 1. simpl.
    destruct (truthy (p x (index + 1))); simpl.
    + reflexivity.
    + apply IH.
Qed.

Lemma findIndex_loop_pure (items : list value) :
  forall (index : Z) (w : W),
    Iterator.findIndex_loop (pure_callback p) index (array_iter items) w
    = (w, Ok match List.find (hit p) (with_index (index + 1) items) with
             | Some c => num (snd c)
             | None => VUndefined
             end).
Proof.
  induction items as [|x items IH]; intros index w.
  - reflexivity.
  - simpl. unfold hit at 1. simpl.
    destruct (truthy (p x (index + 1))); simpl.
    + reflexivity.
    + apply IH.
Qed.

Lemma find_array (l : loc) (items : list value) (w : W) :
  Iterator.find (pure_callback p) (wrap_array l items) w
  = (w, Ok match List.find (hit p) (with_index 0 items) with
           | Some c => fst c
           | None => VUndefined
           end).
Proof. unfold Iterator.find, bind, lift. simpl. apply find_loop_pure. Qed.

Lemma findIndex_array (l : loc) (items : list value) (w : W) :
  Iterator.findIndex (pure_callback p) (wrap_array l items) w
  = (w, Ok match List.find (hit p) (with_index 0 items) with
           | Some c => num (snd c)
           | None => VUndefined
           end).
Proof. unfold Iterator.findIndex, bind, lift. simpl. apply findIndex_loop_pure. Qed.

(** The positive half of the search: the position of the first match. *)
Lemma findIndex_first_match (l : loc) (before after : list value)
  (x : value) (w : W) :
  existsb (hit p) (with_index 0 before) = false ->
  truthy (p x (Z.of_nat (List.length before))) = true ->
  Iterator.findIndex (pure_callback p) (wrap_array l (before ++ x :: after)) w
  = (w, Ok (num (Z.of_nat (List.length before)))).
Proof.
  intros Hbefore Hx. rewrite findIndex_array, with_index_app.
  rewrite find_skip by exact Hbefore.
  simpl. unfold hit at 1. simpl. now rewrite Hx.
Qed.

End Searches.

Section Includes.

Context {W : Type}.

(** What [includes] computes on an array: the membership test, and the
    truthiness of the element found. *)
Lemma includes_array (v : value) (fromIndex : number) (l : loc)
  (items : list value) (w : W) :
  Iterator.includes v fromIndex (wrap_array l items) w
  = (w, Ok (truthy v
            && existsb (fun c => strict_eq (fst c) v && index_ge (snd c) fromIndex)
                 (with_index 0 items))).
Proof.
  unfold Iterator.includes, bind.
  change (fun (item : value) (index : Z) (w0 : W) =>
            (w0, VBool (strict_eq item v && index_ge index fromIndex)))
    with (pure_callback (W := W)
            (fun item index => VBool (strict_eq item v && index_ge index fromIndex))).
  rewrite find_array. unfold ret.
  change (hit (fun item index => VBool (strict_eq item v && index_ge index fromIndex)))
    with (fun c : value * Z => strict_eq (fst c) v && index_ge (snd c) fromIndex).
  set (q := fun c : value * Z => strict_eq (fst c) v && index_ge (snd c) fromIndex).
  rewrite (find_existsb q).
  destruct (List.find q (with_index 0 items)) as [c|] eqn:E.
  - apply find_some in E. destruct E as [_ Hc].
    unfold q in Hc. apply andb_prop in Hc. destruct Hc as [Hc _].
    now rewrite (strict_eq_truthy _ _ Hc), andb_true_r.
  - now rewrite andb_false_r.
Qed.

(** For a truthy [v] the answer is the membership test. *)
Lemma includes_truthy (v : value) (fromIndex : number) (l : loc)
  (items : list value) (w : W) :
  truthy v = true ->
  Iterator.includes v fromIndex (wrap_array l items) w
  = (w, Ok (existsb (fun c => strict_eq (fst c) v && index_ge (snd c) fromIndex)
              (with_index 0 items))).
Proof. intros Hv. now rewrite includes_array, Hv. Qed.

(** C4.  [includes] answers by the truthiness of the element that [find]
    returns, so a falsy [v] (0, the empty string, false, null, undefined)
    is never reported as included, whatever the source holds: the claim
    that it is reported whenever it occurs at an index from [fromIndex] on
    fails on the code. *)
Theorem includes_misses_falsy_values (v : value) (fromIndex : number)
  (l : loc) (items : list value) (w : W) :
  truthy v = false ->
  Iterator.includes v fromIndex (wrap_array l items) w = (w, Ok false).
Proof. intros Hv. now rewrite includes_array, Hv. Qed.

(** C10.  [includes(NaN, fromIndex)] is false for every source and every
    [fromIndex], also when NaN occurs in the source: strict equality never
    holds against NaN. *)
Theorem includes_NaN_false (fromIndex : number) (l : loc)
  (items : list value) (w : W) :
  Iterator.includes (VNumber NaN) fromIndex (wrap_array l items) w
  = (w, Ok false).
Proof. now rewrite includes_array. Qed.

(** C3.  When no element satisfies the predicate, and so on the empty
    source, [findIndex] falls off the end of its loop and returns
    [undefined], not [-1]. *)
Theorem findIndex_without_match_is_undefined (p : value -> Z -> value)
  (l : loc) (items : list value) (w : W) :
  existsb (hit p) (with_index 0 items) = false ->
  Iterator.findIndex (pure_callback p) (wrap_array l items) w
  = (w, Ok VUndefined)
  /\ Iterator.findIndex (pure_callback p) (wrap_array l items) w
     <> (w, Ok (num (-1))).
Proof.
  intros Hnone. rewrite findIndex_array.
  rewrite find_existsb in Hnone.
  destruct (List.find (hit p) (with_index 0 items)); [discriminate|].
  split; [reflexivity | discriminate].
Qed.

End Includes.

(** ** The lazy transforms *)

Lemma Gen_resume {W} (g : gen W) : Gen (resume g) = g.
Proof. now destruct g. Qed.

(** A generator over an iterable source behaves as its loop over the
    source's iterator. *)
Lemma for_of_started {W} (r : jsref W) (it : gen W) (body : gen W -> gen W) :
  get_iterator r = Ok it -> for_of r body = body it.
Proof.
  intros H. unfold for_of. rewrite H.
  change (Gen (resume (body it)) = body it). apply Gen_resume.
Qed.

Lemma for_of_failed {W} (r : jsref W) (e : error) (body : gen W -> gen W) :
  get_iterator r = Throw e -> for_of r body = Gen (fun w => Raise w e).
Proof. intros H. unfold for_of. now rewrite H. Qed.

Section Construction.

Context {W : Type}.

(** Building a stage runs nothing: the world is the one it was, and the
    new wrapper holds the generator object, not yet resumed. *)
Lemma map_constructs (lambda : callback W) (this : Wrapper W) (w : W) :
  Iterator.map lambda this w
  = (w, Ok {| ref := RGen (Iterator.rawMap lambda this) |}).
Proof. reflexivity. Qed.

Lemma filter_constructs (lambda : callback W) (this : Wrapper W) (w : W) :
  Iterator.filter lambda this w
  = (w, Ok {| ref := RGen (Iterator.rawFilter lambda this) |}).
Proof. reflexivity. Qed.

Lemma flat_constructs (depth : nat) (this : Wrapper W) (w : W) :
  Iterator.flat depth this w
  = (w, Ok {| ref := RGen (Iterator.rawFlat depth this) |}).
Proof. reflexivity. Qed.

Lemma flatMap_constructs (lambda : callback W) (depth : nat)
  (this : Wrapper W) (w : W) :
  Iterator.flatMap lambda depth this w
  = (w, Ok {| ref := RGen (Iterator.rawFlat depth
                             {| ref := RGen (Iterator.rawMap lambda this) |}) |}).
Proof. reflexivity. Qed.

End Construction.

(** [find] over [map] over a traced source: the elements leave the source
    one at a time, each is mapped before the next one is pulled, and nothing
    happens past the first match. *)
Lemma find_map_trace (f p : value -> Z -> value) (items : list value) :
  forall (index : Z) (log : list event),
    Iterator.find_loop (pure_callback p) (index - 1)
      (Iterator.rawMap_loop (traced_callback f) index (traced_source items)) log
    = (log ++ events_of (with_index index (needed f p index items)),
       Ok match List.find (hit p)
                  (with_index index
                     (List.map (image_at f) (with_index index items))) with
          | Some c => fst c
          | None => VUndefined
          end).
Proof.
  induction items as [|x items IH]; intros index log.
  - simpl. now rewrite app_nil_r.
  - simpl. replace (index - 1 + 1) with index by lia.
    unfold hit at 1, image_at at 1. simpl.
    destruct (truthy (p (f x index) index)) eqn:E; simpl.
    + now rewrite <- app_assoc.
    + replace index with (index + 1 - 1) at 1 by lia.
      rewrite IH. now rewrite <- !app_assoc.
Qed.

(** What draining a filter stage over an array observes: the predicate is
    called on every source element with its source position, and the
    elements it accepts come out. *)
Lemma rawFilter_drain (p : value -> Z -> value) (items : list value) :
  forall (index : Z) (log : list (value * Z)),
    drain (Gen (Iterator.rawFilter_next (recording p) index (array_iter items)))
      log
    = (log ++ with_index index items,
       Ok (List.map fst (accepted p (with_index index items)))).
Proof.
  induction items as [|x items IH]; intros index log.
  - simpl. now rewrite app_nil_r.
  - specialize (IH (index + 1) (log ++ [(x, index)])).
    simpl in *. unfold hit at 1. simpl.
    destruct (truthy (p x index)); simpl.
    + rewrite IH. now rewrite <- app_assoc.
    + rewrite IH. now rewrite <- app_assoc.
Qed.

(** C6, as amended.  The index handed to the predicate of [filter] is the
    position in the source, rejected elements included: over any source the
    predicate is called on each element with its source position.  Over
    [10, 20, 30, 40], a predicate keeping 20 and 40 sees them at the
    indices 1 and 3. *)
Theorem filter_index_counts_source (p : value -> Z -> value) (l : loc)
  (items : list value) :
  (kept <- Iterator.filter (recording p) (wrap_array l items) ;;
   Iterator.spread kept) []
  = (with_index 0 items, Ok (List.map fst (accepted p (with_index 0 items))))
  /\ (kept <- Iterator.filter (recording is_20_or_40)
                (wrap_array l [num 10; num 20; num 30; num 40]) ;;
      Iterator.spread kept) []
     = ([(num 10, 0); (num 20, 1); (num 30, 2); (num 40, 3)],
        Ok [num 20; num 40])
  /\ filter_report is_20_or_40 l [num 10; num 20; num 30; num 40]
     = [(num 20, 1); (num 40, 3)].
Proof.
  split; [|split; reflexivity].
  unfold bind. rewrite filter_constructs.
  unfold Iterator.spread, Iterator.symbol_iterator, bind, lift, Iterator.rawFilter.
  cbn [ref get_iterator wrap_array].
  rewrite (for_of_started _ (array_iter items)) by reflexivity.
  exact (rawFilter_drain p items 0 []).
Qed.

(** C6, as the specification words its example: keeping the even elements
    of [10, 20, 30, 40] does not keep 20 and 40 at the indices 0 and 2.
    All four elements are even and are seen at 0, 1, 2, 3; 20 and 40 are
    at 1 and 3. *)
Lemma filter_example_indices_refuted :
  (kept <- Iterator.filter (recording is_even)
             (wrap_array 1 [num 10; num 20; num 30; num 40]) ;;
   Iterator.spread kept) []
  = ([(num 10, 0); (num 20, 1); (num 30, 2); (num 40, 3)],
     Ok [num 10; num 20; num 30; num 40])
  /\ filter_report is_even 1 [num 10; num 20; num 30; num 40]
     <> [(num 20, 0); (num 40, 2)]
  /\ filter_report is_20_or_40 1 [num 10; num 20; num 30; num 40]
     <> [(num 20, 0); (num 40, 2)].
Proof. repeat split; discriminate. Qed.

(** ** Construction *)

Section New.

Context {W : Type}.

(** C7, as amended.  For every value other than a primitive string,
    construction succeeds exactly when a [Symbol.iterator] property is
    found on the value, whatever the property holds: it then returns the
    wrapper bound to the value and touches nothing.  Otherwise it throws a
    TypeError at once: the explicit one for an object, the one of the [in]
    operator for a primitive. *)
Theorem new_checks_property_presence (v : jsref W) (w : W) :
  is_string_ref v = false ->
  Iterator.new v w
  = (w, if has_symbol_iterator v then Ok {| ref := v |}
        else Throw (if is_object_ref v then Iterator.InvalidArgument
                    else in_operand_error)).
Proof.
  destruct v as [[| |b|n|s|l items|l [held|] fields]|g]; simpl; intros H;
    try discriminate; reflexivity.
Qed.

(** Primitive strings iterate, and are refused all the same. *)
Lemma new_rejects_strings (s : string) (w : W) :
  exposes_iteration (W := W) (RVal (VString s)) = true
  /\ Iterator.new (RVal (VString s)) w = (w, Throw in_operand_error).
Proof. split; reflexivity. Qed.


End New.


(** C7, as the specification words it: the object [fake_iterable] lacks the
    iteration capability, and construction does not raise on it. *)
Lemma new_accepts_non_iterable_object :
  ~ (raises_TypeError (Iterator.new (W := unit) (RVal fake_iterable) tt)
     <-> exposes_iteration (W := unit) (RVal fake_iterable) = false).
Proof.
  intros [_ H]. destruct (H eq_refl) as [msg Hmsg]. discriminate Hmsg.
Qed.

(** ** Flattening *)

(** At depth 0 every element comes out as it is. *)
Lemma rawFlat_zero {W} (l : loc) (items : list value) (w : W) :
  drain (Iterator.rawFlat 0 (wrap_array l items)) w = (w, Ok items).
Proof.
  unfold Iterator.rawFlat, wrap_array. cbn [ref].
  rewrite (for_of_started _ (array_iter items)) by reflexivity.
  induction items as [|x items IH].
  - reflexivity.
  - simpl in *. now rewrite IH.
Qed.

(** At any depth from 1 on, a primitive first element stops the flattening:
    the membership test on it throws. *)
Lemma rawFlat_primitive_throws {W} (depth : nat) (l : loc) (x : value)
  (rest : list value) (w : W) :
  is_primitive x = true ->
  drain (Iterator.rawFlat (S depth) (wrap_array l (x :: rest))) w
  = (w, Throw in_operand_error).
Proof.
  intros Hx. unfold wrap_array. simpl.
  destruct x; simpl in *; try discriminate; reflexivity.
Qed.

(** The flatten example holds when the leaves are records. *)
Example flat_nested_records :
  (flattened <- Iterator.flat 1 {| ref := RVal nested_records |} ;;
   Iterator.spread flattened) tt
  = (tt, Ok [leaf 1; leaf 2; VArray 102 [leaf 3; VArray 103 [leaf 4]]])
  /\ (flattened <- Iterator.flat 2 {| ref := RVal nested_records |} ;;
      Iterator.spread flattened) tt
     = (tt, Ok [leaf 1; leaf 2; leaf 3; VArray 103 [leaf 4]]).
Proof. split; reflexivity. Qed.

(** C1.  On the source [1, [2, [3, [4]]]], [flat(0)] yields the two
    elements unchanged, but [flat(1)] and [flat(2)] yield nothing and throw
    the TypeError of the [in] operator on the number 1: a primitive element
    is not passed through below depth 0. *)
Theorem flat_throws_on_numbers :
  (flattened <- Iterator.flat 0 {| ref := RVal nested_numbers |} ;;
   Iterator.spread flattened) tt
  = (tt, Ok [num 1; VArray 101 [num 2; VArray 102 [num 3; VArray 103 [num 4]]]])
  /\ (flattened <- Iterator.flat 1 {| ref := RVal nested_numbers |} ;;
      Iterator.spread flattened) tt
     = (tt, Throw in_operand_error)
  /\ (flattened <- Iterator.flat 2 {| ref := RVal nested_numbers |} ;;
      Iterator.spread flattened) tt
     = (tt, Throw in_operand_error).
Proof. repeat split. Qed.

(** ** Removing duplicates *)

(** A repeated key whose stored value is truthy is overwritten by the new
    item, and [merge] is not called. *)
Lemma dedupe_step_overwrites {W} (identify : value -> W -> W * value)
  (merge : value -> value -> W -> W * value) (m : jsmap) (next : value)
  (index : Z) (w : W) :
  truthy (map_get (snd (identify next w)) m) = true ->
  Iterator.dedupe_step identify merge m next index w
  = (fst (identify next w), map_set (snd (identify next w)) next m).
Proof.
  unfold Iterator.dedupe_step. destruct (identify next w) as [w1 id]. simpl.
  intros H. unfold coalesce.
  destruct (map_get id m); simpl in *; try discriminate; now rewrite ?H.
Qed.

(** C2.  On [{id:1,v:'a'}, {id:2,v:'b'}, {id:1,v:'c'}] with
    [identify = x => x.id] and the default merge, [dedupe] yields
    [{id:1,v:'c'}, {id:2,v:'b'}]: the repeated key takes the new item, the
    first one is not kept. *)
Theorem dedupe_keeps_last_item :
  (unique <- Iterator.dedupe identify_id Iterator.default_merge
               (wrap_array 200 [item_a; item_b; item_c]) ;;
   Iterator.spread unique) tt
  = (tt, Ok [item_c; item_b])
  /\ (unique <- Iterator.dedupe identify_id Iterator.default_merge
                  (wrap_array 200 [item_a; item_b; item_c]) ;;
      Iterator.spread unique) tt
     <> (tt, Ok [item_a; item_b]).
Proof. split; [reflexivity | discriminate]. Qed.

(** ** Keyed stores *)

Lemma find_app {A} (f : A -> bool) (l1 l2 : list A) :
  List.find f (l1 ++ l2)
  = match List.find f l1 with
    | Some a => Some a
    | None => List.find f l2
    end.
Proof.
  induction l1 as [|a l1 IH]; simpl.
  - reflexivity.
  - destruct (f a); [reflexivity | exact IH].
Qed.

Section AssocFacts.

Context {K T : Type} (same : K -> K -> bool) (class : K -> T).
Hypothesis same_class : forall a b, same a b = true <-> class a = class b.

Lemma same_refl (a : K) : same a a = true.
Proof. now apply same_class. Qed.

Lemma same_congr (a b c : K) : same a b = true -> same a c = same b c.
Proof.
  intros Hab. apply same_class in Hab.
  destruct (same a c) eqn:Hac, (same b c) eqn:Hbc; try reflexivity.
  - apply same_class in Hac.
    assert (same b c = true) by (apply same_class; congruence). congruence.
  - apply same_class in Hbc.
    assert (same a c = true) by (apply same_class; congruence). congruence.
Qed.

Lemma same_apart (a b c : K) :
  same a b = false -> same a c = true -> same b c = false.
Proof.
  intros Hab Hac. apply same_class in Hac.
  destruct (same b c) eqn:Hbc; [|reflexivity].
  apply same_class in Hbc.
  assert (same a b = true) by (apply same_class; congruence). congruence.
Qed.

Lemma assoc_get_set (key k : K) (v : value) (m : list (K * value)) :
  assoc_get same key (assoc_set same k v m)
  = if same k key then v else assoc_get same key m.
Proof.
  induction m as [|[k0 x] m IH]; simpl.
  - reflexivity.
  - destruct (same k0 k) eqn:E0; simpl.
    + rewrite (same_congr _ _ key E0). now destruct (same k key).
    + rewrite IH. destruct (same k0 key) eqn:E1.
      * now rewrite (same_apart _ _ _ E0 E1).
      * reflexivity.
Qed.

Lemma assoc_set_keys (k : K) (v : value) (m : list (K * value)) :
  List.map fst (assoc_set same k v m) = see same (List.map fst m) k.
Proof.
  unfold see. induction m as [|[k0 x] m IH]; simpl.
  - reflexivity.
  - destruct (same k0 k); simpl.
    + reflexivity.
    + rewrite IH. now destruct (existsb _ (List.map fst m)).
Qed.

Lemma assoc_set_fresh (k : K) (v : value) (m : list (K * value)) :
  existsb (fun s => same s k) (List.map fst m) = false ->
  assoc_set same k v m = m ++ [(k, v)].
Proof.
  induction m as [|[k0 x] m IH]; simpl; intros H.
  - reflexivity.
  - apply orb_false_elim in H. destruct H as [H0 H]. rewrite H0.
    now rewrite IH.
Qed.

(** Storing the pairs one after the other: every key holds its last value. *)
Lemma fold_get (key : K) (pairs : list (K * value)) :
  forall m0,
    assoc_get same key (fold_left (store same) pairs m0)
    = match List.find (fun kv => same (fst kv) key) (rev pairs) with
      | Some kv => snd kv
      | None => assoc_get same key m0
      end.
Proof.
  induction pairs as [|[k v] pairs IH]; intros m0; simpl.
  - reflexivity.
  - rewrite IH, find_app. unfold store at 1. simpl.
    destruct (List.find _ (rev pairs)); [reflexivity|].
    rewrite assoc_get_set. now destruct (same k key).
Qed.

(** The keys stay in the order of their first occurrence. *)
Lemma fold_keys (pairs : list (K * value)) :
  forall m0,
    List.map fst (fold_left (store same) pairs m0)
    = fold_left (see same) (List.map fst pairs) (List.map fst m0).
Proof.
  induction pairs as [|[k v] pairs IH]; intros m0; simpl.
  - reflexivity.
  - rewrite IH. unfold store. simpl. now rewrite assoc_set_keys.
Qed.

Lemma distinct_app_fresh (ks : list K) (k : K) (rest : list K) :
  distinct same (ks ++ k :: rest) = true ->
  existsb (fun s => same s k) ks = false.
Proof.
  induction ks as [|k0 ks IH]; simpl; intros H.
  - reflexivity.
  - apply andb_prop in H. destruct H as [H0 H].
    rewrite existsb_app in H0. simpl in H0.
    rewrite (IH H). destruct (same k0 k); [|reflexivity].
    now rewrite orb_true_r in H0.
Qed.


End AssocFacts.

(** ** The sinks *)

Lemma same_value_zero_class (a b : value) :
  same_value_zero a b = true <-> key_of a = key_of b.
Proof.
  destruct a as [| |x|[|x]|x|l xs|l s f], b as [| |y|[|y]|y|l' ys|l' s' f'];
    simpl; split; intros H; try discriminate; try reflexivity.
  - apply Bool.eqb_prop in H. now subst.
  - injection H as ->. apply Bool.eqb_reflx.
  - apply Z.eqb_eq in H. now subst.
  - injection H as ->. apply Z.eqb_refl.
  - apply String.eqb_eq in H. now subst.
  - injection H as ->. apply String.eqb_refl.
  - apply Z.eqb_eq in H. now subst.
  - injection H as ->. apply Z.eqb_refl.
  - apply Z.eqb_eq in H. now subst.
  - injection H as ->. apply Z.eqb_refl.
Qed.

Lemma string_eqb_class (a b : string) :
  String.eqb a b = true <-> (fun s : string => s) a = (fun s : string => s) b.
Proof. apply String.eqb_eq. Qed.

Section AssocFind.

Context {K T : Type} (same : K -> K -> bool) (class : K -> T).
Hypothesis same_class : forall a b, same a b = true <-> class a = class b.

Lemma assoc_find_set (key k : K) (v : value) (m : list (K * value)) :
  assoc_find same key (assoc_set same k v m)
  = if same k key then Some v else assoc_find same key m.
Proof.
  induction m as [|[k0 x] m IH]; simpl.
  - reflexivity.
  - destruct (same k0 k) eqn:E0; simpl.
    + rewrite (same_congr same class same_class _ _ key E0).
      now destruct (same k key).
    + rewrite IH. destruct (same k0 key) eqn:E1.
      * now rewrite (same_apart same class same_class _ _ _ E0 E1).
      * reflexivity.
Qed.

Lemma fold_find (key : K) (pairs : list (K * value)) :
  forall m0,
    assoc_find same key (fold_left (store same) pairs m0)
    = match List.find (fun kv => same (fst kv) key) (rev pairs) with
      | Some kv => Some (snd kv)
      | None => assoc_find same key m0
      end.
Proof.
  induction pairs as [|[k v] pairs IH]; intros m0; simpl.
  - reflexivity.
  - rewrite IH, find_app. unfold store at 1. simpl.
    destruct (List.find _ (rev pairs)); [reflexivity|].
    rewrite assoc_find_set. now destruct (same k key).
Qed.

End AssocFind.

(** ** The own properties of the object [intoObject] builds *)

Lemma own_absent (name : string) (fields : list (string * value)) :
  existsb (fun kv => String.eqb (fst kv) name) fields = false ->
  own_property name fields = None.
Proof.
  unfold own_property.
  induction fields as [|[k x] fields IH]; simpl; intros H.
  - reflexivity.
  - apply orb_false_elim in H. destruct H as [Hk H]. rewrite Hk. now apply IH.
Qed.

Lemma own_new_property (name k : string) (v : value)
  (before after : list (string * value)) :
  existsb (fun kv => String.eqb (fst kv) k) before = false ->
  own_property name (before ++ (k, v) :: after)
  = if String.eqb k name then Some v else own_property name (before ++ after).
Proof.
  unfold own_property.
  induction before as [|[k0 x] before IH]; simpl; intros H.
  - reflexivity.
  - apply orb_false_elim in H. destruct H as [Hk H]. rewrite (IH H).
    destruct (String.eqb k0 name) eqn:E0; [|reflexivity].
    destruct (String.eqb k name) eqn:E1; [|reflexivity].
    apply String.eqb_eq in E0. apply String.eqb_eq in E1. subst.
    now rewrite String.eqb_refl in Hk.
Qed.

Lemma insert_index_splits (n : N) (k : string) (v : value)
  (fields : list (string * value)) :
  exists before after,
    fields = before ++ after
    /\ insert_index n k v fields = before ++ (k, v) :: after.
Proof.
  induction fields as [|[k0 x] fields IH]; simpl.
  - now exists [], [].
  - destruct (array_index k0) as [m|].
    + destruct (m <? n)%N.
      * destruct IH as (before & after & -> & ->).
        now exists ((k0, x) :: before), after.
      * now exists [], ((k0, x) :: fields).
    + now exists [], ((k0, x) :: fields).
Qed.

Lemma existsb_app_false {A} (f : A -> bool) (l1 l2 : list A) :
  existsb f (l1 ++ l2) = false -> existsb f l1 = false.
Proof.
  rewrite existsb_app. intros H. now apply orb_false_elim in H.
Qed.

(** Defining a property makes it the value read under its name and leaves
    every other name as it was, wherever the property lands in the order. *)
Lemma own_define (name k : string) (v : value)
  (fields : list (string * value)) :
  own_property name (define_property k v fields)
  = if String.eqb k name then Some v else own_property name fields.
Proof.
  unfold define_property.
  destruct (existsb (fun kv => String.eqb (fst kv) k) fields) eqn:Hhas.
  - unfold own_property. apply (assoc_find_set String.eqb _ string_eqb_class).
  - destruct (array_index k) as [n|].
    + destruct (insert_index_splits n k v fields)
        as (before & after & -> & ->).
      apply own_new_property. now apply existsb_app_false in Hhas.
    + replace (fields ++ [(k, v)]) with (fields ++ (k, v) :: []) by reflexivity.
      rewrite own_new_property by exact Hhas. now rewrite app_nil_r.
Qed.

Lemma fold_own (name : string) (pairs : list (string * value)) :
  forall fields0,
    own_property name (fold_left define pairs fields0)
    = match List.find (fun kv => String.eqb (fst kv) name) (rev pairs) with
      | Some kv => Some (snd kv)
      | None => own_property name fields0
      end.
Proof.
  induction pairs as [|[k v] pairs IH]; intros fields0; simpl.
  - reflexivity.
  - rewrite IH, find_app. unfold define at 1. simpl.
    destruct (List.find _ (rev pairs)); [reflexivity|].
    rewrite own_define. now destruct (String.eqb k name).
Qed.


Section Sinks.

Context {W : Type}.

Lemma Map_add_entries_array (entries : list (loc * (value * value))) :
  forall (m0 : jsmap) (w : W),
    Iterator.Map_add_entries (array_iter (List.map entry_array entries)) m0 w
    = (w, Ok (fold_left (store same_value_zero) (List.map snd entries) m0)).
Proof.
  induction entries as [|[a [k v]] entries IH]; intros m0 w.
  - reflexivity.
  - simpl. now rewrite IH.
Qed.

Lemma Object_add_entries_array (exponent_form : Z -> string)
  (entries : list (loc * (value * value))) :
  forall (fields0 : list (string * value)) (w : W),
    Iterator.Object_add_entries exponent_form
      (array_iter (List.map entry_array entries)) fields0 w
    = (w, Ok (fold_left define
                (List.map (named exponent_form) (List.map snd entries))
                fields0)).
Proof.
  induction entries as [|[a [k v]] entries IH]; intros fields0 w.
  - reflexivity.
  - simpl. now rewrite IH.
Qed.

Lemma intoMap_array (l : loc) (entries : list (loc * (value * value))) (w : W) :
  Iterator.intoMap (wrap_array l (List.map entry_array entries)) w
  = (w, Ok (fold_left (store same_value_zero) (List.map snd entries) [])).
Proof.
  unfold Iterator.intoMap, wrap_array, bind, lift. cbn [ref get_iterator].
  apply Map_add_entries_array.
Qed.

Lemma intoObject_array (exponent_form : Z -> string) (l : loc)
  (entries : list (loc * (value * value))) (w : W) :
  Iterator.intoObject exponent_form
    (wrap_array l (List.map entry_array entries)) w
  = (w, Ok (fold_left define
              (List.map (named exponent_form) (List.map snd entries)) [])).
Proof.
  unfold Iterator.intoObject, wrap_array, bind, lift. cbn [ref get_iterator].
  apply Object_add_entries_array.
Qed.

(** The object keeps the properties named by array indices first and in
    ascending order, whatever the order of the entries. *)
Example intoObject_orders_array_indices_first (exponent_form : Z -> string)
  (w : W) :
  Iterator.intoObject exponent_form
    (wrap_array 310 (List.map entry_array [pair_b1; pair_22; pair_13])) w
  = (w, Ok [("1", num 3); ("2", num 2); ("b", num 1)]).
Proof. reflexivity. Qed.


End Sinks.

(** ** The properties at concrete inputs *)

Lemma includes_misses_falsy_values_witness :
  truthy (num 0) = false
  /\ Iterator.includes (num 0) (Int 0) (wrap_array 1 [num 0]) tt
     = (tt, Ok false).
Proof.
  split; [reflexivity|].
  apply (includes_misses_falsy_values (W := unit)). reflexivity.
Defined.

Lemma findIndex_without_match_is_undefined_witness :
  existsb (hit (fun item _ => VBool (strict_eq item (num 7))))
    (with_index 0 [num 1; num 2; num 3]) = false
  /\ Iterator.findIndex
       (pure_callback (fun item _ => VBool (strict_eq item (num 7))))
       (wrap_array 1 [num 1; num 2; num 3]) tt
     = (tt, Ok VUndefined).
Proof.
  split; [reflexivity|].
  apply (findIndex_without_match_is_undefined (W := unit)). reflexivity.
Defined.

Lemma new_checks_property_presence_witness :
  is_string_ref (W := unit) (RVal fake_iterable) = false
  /\ Iterator.new (W := unit) (RVal fake_iterable) tt
     = (tt, Ok {| ref := RVal fake_iterable |}).
Proof.
  split; [reflexivity|].
  apply (new_checks_property_presence (W := unit) (RVal fake_iterable) tt).
  reflexivity.
Defined.


(** ** Generators in general *)

Section Generators.

Context {W : Type}.

(** Induction on a generator: what holds of every suspended rest holds of
    the generator. *)
Lemma gen_induction (P : gen W -> Prop) :
  (forall r,
      (forall w w1 item rest, r w = Yield w1 item rest -> P rest) ->
      P (Gen r)) ->
  forall g, P g.
Proof.
  intros H.
  apply (gen_step_ind W P
           (fun s => match s with Yield _ _ rest => P rest | _ => True end)).
  - intros r IH. apply H. intros w w1 item rest E.
    specialize (IH w). now rewrite E in IH.
  - intros; exact I.
  - intros w item rest IH. exact IH.
  - intros; exact I.
Qed.

Lemma drain_array (items : list value) (w : W) :
  drain (array_iter items) w = (w, Ok items).
Proof.
  induction items as [|x items IH]; simpl.
  - reflexivity.
  - now rewrite IH.
Qed.

Lemma drain_yield_all (g k : gen W) :
  forall w,
    drain (yield_all g k) w
    = match drain g w with
      | (w1, Ok xs) =>
          match drain k w1 with
          | (w2, Ok ys) => (w2, Ok (xs ++ ys))
          | (w2, Throw e) => (w2, Throw e)
          end
      | (w1, Throw e) => (w1, Throw e)
      end.
Proof.
  induction g as [r IH] using gen_induction. intros w. simpl.
  destruct (r w) as [w1|w1 item rest|w1 e] eqn:E.
  - destruct k as [rk]. simpl.
    destruct (rk w1) as [w2|w2 y restk|w2 e]; try reflexivity.
    now destruct (drain restk w2) as [w3 [ys|e]].
  - rewrite (IH _ _ _ _ E).
    destruct (drain rest w1) as [w2 [xs|e]]; [|reflexivity].
    now destruct (drain k w2) as [w3 [ys|e]].
  - reflexivity.
Qed.

Lemma with_index_images (f : value -> Z -> value) (items : list value) :
  forall index,
    with_index index (List.map (image_at f) (with_index index items))
    = List.map (fun c => (f (fst c) (snd c), snd c)) (with_index index items).
Proof.
  induction items as [|x items IH]; intros index; simpl.
  - reflexivity.
  - now rewrite IH.
Qed.

(** A map stage with a callback without effects, over any source. *)
Lemma drain_rawMap_pure (f : value -> Z -> value) (it : gen W) :
  forall index w,
    drain (Iterator.rawMap_loop (pure_callback f) index it) w
    = on_elements (drain it w)
        (fun items => List.map (image_at f) (with_index index items)).
Proof.
  induction it as [r IH] using gen_induction. intros index w.
  unfold on_elements. simpl.
  destruct (r w) as [w1|w1 item rest|w1 e] eqn:E; try reflexivity.
  simpl. rewrite (IH _ _ _ _ E). unfold on_elements.
  now destruct (drain rest w1) as [w2 [xs|e]].
Qed.

(** A filter stage with a predicate without effects, over any source. *)
Lemma drain_rawFilter_pure (p : value -> Z -> value) (it : gen W) :
  forall index w,
    drain (Gen (Iterator.rawFilter_next (pure_callback p) index it)) w
    = on_elements (drain it w)
        (fun items => List.map fst (accepted p (with_index index items))).
Proof.
  induction it as [r IH] using gen_induction. intros index w.
  unfold on_elements. simpl.
  destruct (r w) as [w1|w1 item rest|w1 e] eqn:E; try reflexivity.
  simpl. specialize (IH _ _ _ _ E (index + 1) w1).
  unfold on_elements in IH. simpl in IH.
  destruct (truthy (p item index)) eqn:T; simpl; rewrite IH;
    destruct (drain rest w1) as [w2 [xs|e]]; simpl; try reflexivity;
    unfold accepted; simpl;
    change (hit p (item, index)) with (truthy (p item index));
    now rewrite T.
Qed.

Lemma rawMap_started (lambda : callback W) (this : Wrapper W) (w : W) :
  drain (Iterator.rawMap lambda this) w
  = match get_iterator (ref this) with
    | Ok it => drain (Iterator.rawMap_loop lambda 0 it) w
    | Throw e => (w, Throw e)
    end.
Proof.
  unfold Iterator.rawMap.
  destruct (get_iterator (ref this)) as [it|e] eqn:E.
  - now rewrite (for_of_started _ it).
  - now rewrite (for_of_failed _ e).
Qed.

Lemma rawFilter_started (lambda : callback W) (this : Wrapper W) (w : W) :
  drain (Iterator.rawFilter lambda this) w
  = match get_iterator (ref this) with
    | Ok it => drain (Gen (Iterator.rawFilter_next lambda 0 it)) w
    | Throw e => (w, Throw e)
    end.
Proof.
  unfold Iterator.rawFilter.
  destruct (get_iterator (ref this)) as [it|e] eqn:E.
  - now rewrite (for_of_started _ it).
  - now rewrite (for_of_failed _ e).
Qed.

Lemma spread_started (this : Wrapper W) (w : W) :
  Iterator.spread this w
  = match get_iterator (ref this) with
    | Ok it => drain it w
    | Throw e => (w, Throw e)
    end.
Proof.
  unfold Iterator.spread, Iterator.symbol_iterator, bind, lift.
  now destruct (get_iterator (ref this)).
Qed.

(** X2.  Mapping twice is mapping once with the composed callback, each
    element keeping its source position: over any wrapper, [map(f)] then
    [map(g)] collects [g(f(x, i), i)] for the elements the wrapper
    iterates, and a failure of the source comes through as it is. *)
Theorem map_map_fusion (array_like : value -> result (list value))
  (f g : value -> Z -> value) (this : Wrapper W) (w : W) :
  (first <- Iterator.map (pure_callback f) this ;;
   second <- Iterator.map (pure_callback g) first ;;
   Iterator.intoArray array_like second) w
  = on_elements (Iterator.spread this w)
      (fun items =>
         List.map (fun c => g (f (fst c) (snd c)) (snd c)) (with_index 0 items)).
Proof.
  unfold bind. rewrite !map_constructs.
  unfold Iterator.intoArray. cbn [ref].
  rewrite rawMap_started. cbn [ref get_iterator].
  rewrite drain_rawMap_pure, rawMap_started, spread_started.
  destruct (get_iterator (ref this)) as [it|e]; [|reflexivity].
  rewrite drain_rawMap_pure. unfold on_elements. simpl.
  destruct (drain it w) as [w1 [items|e]]; [|reflexivity]. simpl.
  now rewrite with_index_images, List.map_map.
Qed.

(** X3.  Filtering twice: the second predicate sees the elements the first
    one kept, at their positions among the kept ones, not at their source
    positions. *)
Theorem filter_filter_reindexes (array_like : value -> result (list value))
  (p q : value -> Z -> value) (this : Wrapper W) (w : W) :
  (first <- Iterator.filter (pure_callback p) this ;;
   second <- Iterator.filter (pure_callback q) first ;;
   Iterator.intoArray array_like second) w
  = on_elements (Iterator.spread this w)
      (fun items =>
         List.map fst
           (accepted q
              (with_index 0 (List.map fst (accepted p (with_index 0 items)))))).
Proof.
  unfold bind. rewrite !filter_constructs.
  unfold Iterator.intoArray. cbn [ref].
  rewrite rawFilter_started. cbn [ref get_iterator].
  rewrite drain_rawFilter_pure, rawFilter_started, spread_started.
  destruct (get_iterator (ref this)) as [it|e]; [|reflexivity].
  rewrite drain_rawFilter_pure. unfold on_elements. simpl.
  now destruct (drain it w) as [w1 [items|e]].
Qed.

End Generators.

(** ** Mapping, visiting and folding an array *)

Lemma rawMap_drain_recording (f : value -> Z -> value) (items : list value) :
  forall (index : Z) (log : list (value * Z)),
    drain (Iterator.rawMap_loop (recording f) index (array_iter items)) log
    = (log ++ with_index index items,
       Ok (List.map (image_at f) (with_index index items))).
Proof.
  induction items as [|x items IH]; intros index log; simpl.
  - now rewrite app_nil_r.
  - rewrite IH. now rewrite <- app_assoc.
Qed.

(** X1.  [map] calls its callback once for each source element, in source
    order, with the positions 0, 1, 2, ..., and collects what it returns in
    the same order. *)
Theorem map_calls_once_per_element (array_like : value -> result (list value))
  (f : value -> Z -> value) (l : loc) (items : list value) :
  (mapped <- Iterator.map (recording f) (wrap_array l items) ;;
   Iterator.intoArray array_like mapped) []
  = (with_index 0 items, Ok (List.map (image_at f) (with_index 0 items))).
Proof.
  unfold bind. rewrite map_constructs.
  unfold Iterator.intoArray. cbn [ref].
  rewrite rawMap_started. cbn [ref wrap_array get_iterator].
  exact (rawMap_drain_recording f items 0 []).
Qed.

Section Folds.

Context {W : Type}.

Lemma forEach_loop_fold (lambda : callback W) (items : list value) :
  forall (index : Z) (w : W),
    Iterator.forEach_loop lambda index (array_iter items) w
    = (fold_left (fun w' c => fst (lambda (fst c) (snd c) w'))
         (with_index index items) w,
       Ok tt).
Proof.
  induction items as [|x items IH]; intros index w; simpl.
  - reflexivity.
  - destruct (lambda x index w) as [w2 y]. simpl. apply IH.
Qed.

(** X4.  [forEach] runs the callback on every element, in source order and
    with 0-based positions, each run starting from the world the previous
    one left; what the callback returns is ignored, so nothing stops the
    visit early. *)
Theorem forEach_visits_every_element (lambda : callback W) (l : loc)
  (items : list value) (w : W) :
  Iterator.forEach lambda (wrap_array l items) w
  = (fold_left (fun w' c => fst (lambda (fst c) (snd c) w'))
       (with_index 0 items) w,
     Ok tt).
Proof.
  unfold Iterator.forEach, bind, lift. cbn [ref wrap_array get_iterator].
  apply forEach_loop_fold.
Qed.

Lemma reduce_loop_fold {A} (lambda : A -> value -> Z -> W -> W * A)
  (items : list value) :
  forall (initial : A) (index : Z) (w : W),
    Iterator.reduce_loop lambda initial index (array_iter items) w
    = let out := fold_left (fun s c => lambda (snd s) (fst c) (snd c) (fst s))
                   (with_index index items) (w, initial) in
      (fst out, Ok (snd out)).
Proof.
  induction items as [|x items IH]; intros initial index w; simpl.
  - reflexivity.
  - destruct (lambda initial x index w) as [w2 acc] eqn:E. simpl.
    now rewrite IH.
Qed.

(** X5.  [reduce] is the left fold of its callback over the elements with
    their 0-based positions, starting from [initial]; on an empty source it
    returns [initial] and calls nothing. *)
Theorem reduce_folds_left {A} (lambda : A -> value -> Z -> W -> W * A)
  (initial : A) (l : loc) (items : list value) (w : W) :
  Iterator.reduce lambda initial (wrap_array l items) w
  = (let out := fold_left (fun s c => lambda (snd s) (fst c) (snd c) (fst s))
                  (with_index 0 items) (w, initial) in
     (fst out, Ok (snd out)))
  /\ Iterator.reduce lambda initial (wrap_array l []) w = (w, Ok initial).
Proof.
  split; [|reflexivity].
  unfold Iterator.reduce, bind, lift. cbn [ref wrap_array get_iterator].
  apply reduce_loop_fold.
Qed.

End Folds.

(** ** Searching an array *)

Lemma find_first (p : value -> Z -> value) (items : list value) :
  forall index c,
    List.find (hit p) (with_index index items) = Some c ->
    exists before after,
      items = before ++ fst c :: after
      /\ snd c = index + Z.of_nat (List.length before)
      /\ existsb (hit p) (with_index index before) = false
      /\ hit p c = true.
Proof.
  induction items as [|x items IH]; intros index c; simpl.
  - discriminate.
  - destruct (hit p (x, index)) eqn:Hx.
    + intros [= <-]. exists [], items. simpl.
      repeat split; [lia | exact Hx].
    + intros Hfind. destruct (IH _ _ Hfind) as (before & after & -> & Hi & Hb & Hc).
      exists (x :: before), after. simpl. rewrite Hx, Hb.
      repeat split; [lia | exact Hc].
Qed.

Section SearchAgreement.

Context {W : Type}.

(** X6.  [find] and [findIndex] stop at the same place: either the source
    splits at the first element the predicate accepts, [findIndex] returns
    its position and [find] returns the element, or the predicate accepts
    nothing and both return [undefined]. *)
Theorem find_and_findIndex_agree (p : value -> Z -> value) (l : loc)
  (items : list value) (w : W) :
  (exists before x after,
      items = before ++ x :: after
      /\ existsb (hit p) (with_index 0 before) = false
      /\ hit p (x, Z.of_nat (List.length before)) = true
      /\ Iterator.findIndex (pure_callback p) (wrap_array l items) w
         = (w, Ok (num (Z.of_nat (List.length before))))
      /\ Iterator.find (pure_callback p) (wrap_array l items) w = (w, Ok x))
  \/ (existsb (hit p) (with_index 0 items) = false
      /\ Iterator.findIndex (pure_callback p) (wrap_array l items) w
         = (w, Ok VUndefined)
      /\ Iterator.find (pure_callback p) (wrap_array l items) w
         = (w, Ok VUndefined)).
Proof.
  rewrite findIndex_array, find_array, find_existsb.
  destruct (List.find (hit p) (with_index 0 items)) as [[x i]|] eqn:E.
  - left. destruct (find_first _ _ _ _ E) as (before & after & -> & Hi & Hb & Hc).
    simpl in *. subst i. exists before, x, after. now repeat split.
  - right. now repeat split.
Qed.

(** X8.  [some] answers by the truthiness of the element [find] returns:
    it is true exactly when the predicate accepts an element and the first
    element it accepts is itself truthy; in particular it is false on the
    empty source. *)
Theorem some_is_truthiness_of_first_match (p : value -> Z -> value) (l : loc)
  (items : list value) (w : W) :
  Iterator.some (pure_callback p) (wrap_array l items) w
  = (w, Ok match List.find (hit p) (with_index 0 items) with
           | Some c => truthy (fst c)
           | None => false
           end)
  /\ Iterator.some (pure_callback p) (wrap_array l []) w = (w, Ok false).
Proof.
  split; [|reflexivity].
  unfold Iterator.some, bind. rewrite find_array. unfold ret.
  now destruct (List.find (hit p) (with_index 0 items)).
Qed.

(** X9.  On a source of truthy elements [some] is the existence test its
    documentation describes. *)
Theorem some_exists_on_truthy_elements (p : value -> Z -> value) (l : loc)
  (items : list value) (w : W) :
  forallb truthy items = true ->
  Iterator.some (pure_callback p) (wrap_array l items) w
  = (w, Ok (existsb (hit p) (with_index 0 items))).
Proof.
  intros Hall.
  unfold Iterator.some, bind. rewrite find_array, find_existsb. unfold ret.
  destruct (List.find (hit p) (with_index 0 items)) as [c|] eqn:E;
    [|reflexivity].
  apply find_some in E. destruct E as [Hin _].
  assert (Hc : In (fst c) items).
  { rewrite <- (with_index_fst items 0). now apply in_map. }
  rewrite forallb_forall in Hall. now rewrite (Hall _ Hc).
Qed.

End SearchAgreement.

(** X7.  [find] calls its predicate on the elements up to and including the
    first one it accepts, in order, and on none after it. *)
Theorem find_stops_calling_at_first_match (p : value -> Z -> value) (l : loc)
  (items : list value) :
  Iterator.find (recording p) (wrap_array l items) []
  = (with_index 0 (needed (fun item _ => item) p 0 items),
     Ok match List.find (hit p) (with_index 0 items) with
        | Some c => fst c
        | None => VUndefined
        end).
Proof.
  unfold Iterator.find, bind, lift. cbn [ref wrap_array get_iterator].
  change (-1) with (0 - 1).
  enough (H : forall index log,
             Iterator.find_loop (recording p) (index - 1) (array_iter items) log
             = (log ++ with_index index (needed (fun item _ => item) p index items),
                Ok match List.find (hit p) (with_index index items) with
                   | Some c => fst c
                   | None => VUndefined
                   end))
    by exact (H 0 []).
  induction items as [|x items IH]; intros index log; simpl.
  - now rewrite app_nil_r.
  - replace (index - 1 + 1) with index by lia.
    change (hit p (x, index)) with (truthy (p x index)).
    destruct (truthy (p x index)); simpl.
    + reflexivity.
    + replace index with (index + 1 - 1) at 1 by lia.
      rewrite IH. now rewrite <- app_assoc.
Qed.

(** ** Where [includes] starts *)

Lemma with_index_bounds (items : list value) :
  forall index c,
    In c (with_index index items) ->
    index <= snd c < index + Z.of_nat (List.length items).
Proof.
  induction items as [|x items IH]; intros index c; simpl.
  - intros [].
  - intros [<-|Hin].
    + simpl. lia.
    + specialize (IH _ _ Hin). lia.
Qed.

Lemma existsb_ext_in {A} (f g : A -> bool) (l : list A) :
  (forall a, In a l -> f a = g a) -> existsb f l = existsb g l.
Proof.
  induction l as [|a l IH]; simpl; intros H.
  - reflexivity.
  - rewrite (H a) by now left. rewrite IH; [reflexivity|].
    intros b Hb. apply H. now right.
Qed.

Section IncludesFrom.

Context {W : Type}.

(** X10.  [includes] compares the position with [fromIndex] and does no
    more: a [fromIndex] of 0 or less searches the whole source (a negative
    one does not count from the end), one at or past the length finds
    nothing, and so does NaN. *)
Theorem includes_fromIndex_edges (v : value) (low high : Z) (l : loc)
  (items : list value) (w : W) :
  low <= 0 ->
  Z.of_nat (List.length items) <= high ->
  Iterator.includes v (Int low) (wrap_array l items) w
  = Iterator.includes v (Int 0) (wrap_array l items) w
  /\ Iterator.includes v (Int high) (wrap_array l items) w = (w, Ok false)
  /\ Iterator.includes v NaN (wrap_array l items) w = (w, Ok false).
Proof.
  intros Hlow Hhigh. rewrite !includes_array. repeat split.
  - do 3 f_equal. apply existsb_ext_in. intros c Hc.
    apply with_index_bounds in Hc. simpl.
    replace (low <=? snd c) with true by (symmetry; apply Z.leb_le; lia).
    replace (0 <=? snd c) with true by (symmetry; apply Z.leb_le; lia).
    reflexivity.
  - replace (existsb _ (with_index 0 items)) with false;
      [now rewrite andb_false_r|].
    symmetry. rewrite <- (existsb_ext_in (fun _ => false)).
    + now induction (with_index 0 items).
    + intros c Hc. apply with_index_bounds in Hc. simpl.
      replace (high <=? snd c) with false by (symmetry; apply Z.leb_gt; lia).
      now rewrite andb_false_r.
  - replace (existsb _ (with_index 0 items)) with false;
      [now rewrite andb_false_r|].
    symmetry. rewrite <- (existsb_ext_in (fun _ => false)).
    + now induction (with_index 0 items).
    + intros c Hc. simpl. now rewrite andb_false_r.
Qed.

Lemma find_loop_ext (lambda1 lambda2 : callback W) (it : gen W) :
  forall index w,
    (forall item i w', index < i -> lambda1 item i w' = lambda2 item i w') ->
    Iterator.find_loop lambda1 index it w = Iterator.find_loop lambda2 index it w.
Proof.
  induction it as [r IH] using gen_induction. intros index w Hsame. simpl.
  destruct (r w) as [w1|w1 item rest|w1 e] eqn:E; try reflexivity.
  rewrite (Hsame item (index + 1) w1) by lia.
  destruct (lambda2 item (index + 1) w1) as [w2 found].
  destruct (negb (truthy found)); [|reflexivity].
  apply (IH _ _ _ _ E). intros item' i w' Hi. apply Hsame. lia.
Qed.

(** X11.  Over any wrapper, [includes(v)] is [some(x => x === v)]: the same
    search, the same answer, the same failure if the source fails. *)
Theorem includes_is_some_equal (v : value) (this : Wrapper W) (w : W) :
  Iterator.includes v (Int 0) this w
  = Iterator.some (pure_callback (equals v)) this w.
Proof.
  unfold Iterator.includes, Iterator.some, Iterator.find, bind, lift.
  destruct (get_iterator (ref this)) as [it|e]; [|reflexivity].
  rewrite (find_loop_ext _ (pure_callback (equals v))); [reflexivity|].
  intros item i w' Hi. unfold pure_callback, equals. simpl.
  replace (0 <=? i) with true by (symmetry; apply Z.leb_le; lia).
  now rewrite andb_true_r.
Qed.

End IncludesFrom.

(** ** Flattening any source *)

Section Flattening.

Context {W : Type}.

Lemma drain_resume (g : gen W) (w : W) :
  drain g w
  = match resume g w with
    | Stop w1 => (w1, Ok [])
    | Raise w1 e => (w1, Throw e)
    | Yield w1 item rest =>
        match drain rest w1 with
        | (w2, Ok items) => (w2, Ok (item :: items))
        | (w2, Throw e) => (w2, Throw e)
        end
    end.
Proof. now destruct g. Qed.

Lemma rawFlat_started (depth : nat) (this : Wrapper W) :
  Iterator.rawFlat depth this
  = match get_iterator (ref this) with
    | Ok it => Iterator.rawFlat depth {| ref := RGen it |}
    | Throw e => Gen (fun w => Raise w e)
    end.
Proof.
  destruct (get_iterator (ref this)) as [it|e] eqn:E.
  - destruct depth; unfold Iterator.rawFlat; fold (@Iterator.rawFlat W);
      rewrite (for_of_started _ it _ E);
      now rewrite (for_of_started (RGen it) it).
  - destruct depth; unfold Iterator.rawFlat; fold (@Iterator.rawFlat W);
      now rewrite (for_of_failed _ e).
Qed.

(** One [next()] of a flatten stage. *)
Lemma rawFlat_resume (depth : nat) (r : W -> step W) (w : W) :
  resume (Iterator.rawFlat depth {| ref := RGen (Gen r) |}) w
  = match r w with
    | Stop w1 => Stop w1
    | Raise w1 e => Raise w1 e
    | Yield w1 item rest =>
        match depth with
        | O => Yield w1 item (Iterator.rawFlat depth {| ref := RGen rest |})
        | S depth' =>
            match isIterator (W := W) (RVal item) with
            | Throw e => Raise w1 e
            | Ok false =>
                Yield w1 item (Iterator.rawFlat depth {| ref := RGen rest |})
            | Ok true =>
                resume
                  (yield_all (Iterator.rawFlat depth' {| ref := RVal item |})
                     (Iterator.rawFlat depth {| ref := RGen rest |})) w1
            end
        end
    end.
Proof.
  destruct depth as [|d].
  - unfold Iterator.rawFlat.
    rewrite (for_of_started (RGen (Gen r)) (Gen r)) by reflexivity.
    cbn [resume]. destruct (r w) as [w1|w1 item rest|w1 e]; try reflexivity.
    now rewrite (for_of_started (RGen rest) rest).
  - unfold Iterator.rawFlat; fold (@Iterator.rawFlat W).
    rewrite (for_of_started (RGen (Gen r)) (Gen r)) by reflexivity.
    cbn [resume]. destruct (r w) as [w1|w1 item rest|w1 e]; try reflexivity.
    rewrite (for_of_started (RGen rest) rest) by reflexivity.
    destruct (isIterator (W := W) (RVal item)) as [[|]|e] eqn:E;
      try reflexivity.
    unfold Iterator.new, bind, lift. now rewrite E.
Qed.

Lemma drain_rawFlat_zero (it : gen W) :
  forall w, drain (Iterator.rawFlat 0 {| ref := RGen it |}) w = drain it w.
Proof.
  induction it as [r IH] using gen_induction. intros w.
  rewrite drain_resume, rawFlat_resume. simpl.
  destruct (r w) as [w1|w1 item rest|w1 e] eqn:E; try reflexivity.
  now rewrite (IH _ _ _ _ E).
Qed.

(** X12.  [flat(0)] changes nothing: over any wrapper it yields the elements
    the wrapper iterates, iterable or not, and fails as the source fails. *)
Theorem flat_zero_is_identity (array_like : value -> result (list value))
  (this : Wrapper W) (w : W) :
  (flattened <- Iterator.flat 0 this ;;
   Iterator.intoArray array_like flattened) w
  = Iterator.spread this w.
Proof.
  unfold bind. rewrite flat_constructs. unfold Iterator.intoArray. cbn [ref].
  rewrite rawFlat_started, spread_started.
  destruct (get_iterator (ref this)) as [it|e]; [|reflexivity].
  apply drain_rawFlat_zero.
Qed.

Lemma drain_rawFlat_one (it : gen W) :
  forall w w' items,
    drain it w = (w', Ok items) ->
    forallb (fun item => is_array item || is_record item) items = true ->
    drain (Iterator.rawFlat 1 {| ref := RGen it |}) w
    = (w', Ok (List.concat (List.map one_level items))).
Proof.
  induction it as [r IH] using gen_induction. intros w w' items Hdrain Hall.
  rewrite drain_resume, rawFlat_resume.
  simpl in Hdrain.
  destruct (r w) as [w1|w1 item rest|w1 e] eqn:E.
  - injection Hdrain as <- <-. reflexivity.
  - destruct (drain rest w1) as [w2 [xs|e]] eqn:Hrest; [|discriminate].
    injection Hdrain as <- <-. simpl in Hall.
    apply andb_prop in Hall. destruct Hall as [Hitem Hxs].
    specialize (IH _ _ _ _ E _ _ _ Hrest Hxs).
    destruct item as [| |b|n|s|a inner|a [held|] fields]; try discriminate.
    + cbn [isIterator symbol_iterator_in].
      rewrite <- drain_resume, drain_yield_all.
      change {| ref := RVal (VArray a inner) |} with (wrap_array (W := W) a inner).
      rewrite rawFlat_zero, IH. reflexivity.
    + cbn [isIterator symbol_iterator_in]. now rewrite IH.
  - discriminate.
Qed.

(** X13.  [flat(1)] expands one level: over any wrapper whose elements are
    arrays or records without a [Symbol.iterator] property, it yields the
    elements of each array, of whatever kind they are, in place of the
    array, and each record as it is. *)
Theorem flat_one_expands_one_level (array_like : value -> result (list value))
  (this : Wrapper W) (w w' : W) (items : list value) :
  Iterator.spread this w = (w', Ok items) ->
  forallb (fun item => is_array item || is_record item) items = true ->
  (flattened <- Iterator.flat 1 this ;;
   Iterator.intoArray array_like flattened) w
  = (w', Ok (List.concat (List.map one_level items))).
Proof.
  intros Hspread Hall.
  unfold bind. rewrite flat_constructs. unfold Iterator.intoArray. cbn [ref].
  rewrite rawFlat_started. rewrite spread_started in Hspread.
  destruct (get_iterator (ref this)) as [it|e]; [|discriminate].
  now apply drain_rawFlat_one.
Qed.

Lemma drain_rawFlat_records (depth : nat) (it : gen W) :
  forall w w' items,
    drain it w = (w', Ok items) ->
    forallb is_record items = true ->
    drain (Iterator.rawFlat depth {| ref := RGen it |}) w = (w', Ok items).
Proof.
  induction it as [r IH] using gen_induction. intros w w' items Hdrain Hall.
  rewrite drain_resume, rawFlat_resume.
  simpl in Hdrain.
  destruct (r w) as [w1|w1 item rest|w1 e] eqn:E.
  - injection Hdrain as <- <-. reflexivity.
  - destruct (drain rest w1) as [w2 [xs|e]] eqn:Hrest; [|discriminate].
    injection Hdrain as <- <-. simpl in Hall.
    apply andb_prop in Hall. destruct Hall as [Hitem Hxs].
    specialize (IH _ _ _ _ E _ _ _ Hrest Hxs).
    destruct item as [| |b|n|s|a inner|a [held|] fields]; try discriminate.
    destruct depth; cbn [isIterator symbol_iterator_in]; now rewrite IH.
  - discriminate.
Qed.

(** X14.  At every depth [flat] passes through, unchanged and in order, the
    objects on which no [Symbol.iterator] property is found. *)
Theorem flat_passes_records (array_like : value -> result (list value))
  (depth : nat) (this : Wrapper W) (w w' : W) (items : list value) :
  Iterator.spread this w = (w', Ok items) ->
  forallb is_record items = true ->
  (flattened <- Iterator.flat depth this ;;
   Iterator.intoArray array_like flattened) w
  = (w', Ok items).
Proof.
  intros Hspread Hall.
  unfold bind. rewrite flat_constructs. unfold Iterator.intoArray. cbn [ref].
  rewrite rawFlat_started. rewrite spread_started in Hspread.
  destruct (get_iterator (ref this)) as [it|e]; [|discriminate].
  now apply drain_rawFlat_records.
Qed.

(** X15.  [flatMap(f)] with a callback that returns arrays concatenates
    them: the elements of [f(x0, 0)], then those of [f(x1, 1)], and so on. *)
Theorem flatMap_concatenates (array_like : value -> result (list value))
  (f : value -> Z -> value) (this : Wrapper W) (w w' : W)
  (items : list value) :
  Iterator.spread this w = (w', Ok items) ->
  forallb is_array (List.map (image_at f) (with_index 0 items)) = true ->
  (flattened <- Iterator.flatMap (pure_callback f) 1 this ;;
   Iterator.intoArray array_like flattened) w
  = (w', Ok (List.concat
               (List.map array_items
                  (List.map (image_at f) (with_index 0 items))))).
Proof.
  intros Hspread Hall.
  unfold bind. rewrite flatMap_constructs. unfold Iterator.intoArray.
  cbn [ref]. rewrite rawFlat_started. cbn [ref get_iterator].
  rewrite spread_started in Hspread.
  assert (Hmapped :
            drain (Iterator.rawMap (pure_callback f) this) w
            = (w', Ok (List.map (image_at f) (with_index 0 items)))).
  { rewrite rawMap_started.
    destruct (get_iterator (ref this)) as [it|e]; [|discriminate].
    rewrite drain_rawMap_pure, Hspread. reflexivity. }
  rewrite (drain_rawFlat_one _ _ _ _ Hmapped).
  - do 2 f_equal. f_equal.
    clear Hmapped. induction (List.map (image_at f) (with_index 0 items))
      as [|y ys IH]; [reflexivity|].
    simpl in *. apply andb_prop in Hall. destruct Hall as [Hy Hys].
    unfold one_level at 1. rewrite Hy. f_equal. now apply IH.
  - clear Hmapped. induction (List.map (image_at f) (with_index 0 items))
      as [|y ys IH]; [reflexivity|].
    simpl in *. apply andb_prop in Hall. destruct Hall as [Hy Hys].
    rewrite Hy. simpl. now apply IH.
Qed.

End Flattening.

(** ** A source that fails *)

Section Failing.

Context {W : Type}.

Lemma drain_failing (items : list value) (e : error) (w : W) :
  drain (failing_source items e) w = (w, Throw e).
Proof.
  induction items as [|x items IH]; simpl.
  - reflexivity.
  - now rewrite IH.
Qed.

Lemma find_loop_failing (p : value -> Z -> value) (items : list value)
  (e : error) :
  forall (index : Z) (w : W),
    Iterator.find_loop (pure_callback p) index (failing_source items e) w
    = (w, match List.find (hit p) (with_index (index + 1) items) with
          | Some c => Ok (fst c)
          | None => Throw e
          end).
Proof.
  induction items as [|x items IH]; intros index w; simpl.
  - reflexivity.
  - change (hit p (x, index + 1)) with (truthy (p x (index + 1))).
    destruct (truthy (p x (index + 1))); simpl; [reflexivity | apply IH].
Qed.

Lemma forEach_loop_failing (f : value -> Z -> value) (items : list value)
  (e : error) :
  forall (index : Z) (w : W),
    Iterator.forEach_loop (pure_callback f) index (failing_source items e) w
    = (w, Throw e).
Proof.
  induction items as [|x items IH]; intros index w; simpl.
  - reflexivity.
  - apply IH.
Qed.

(** X16.  A failure of the source reaches the caller of whatever consumes
    it that far: [find] returns the first match when there is one before
    the failure, and fails as the source does otherwise; [forEach],
    [intoArray] and a drained [map] or [filter] stage always fail with the
    source's error. *)
Theorem source_failure_reaches_the_consumer
  (array_like : value -> result (list value))
  (p f : value -> Z -> value) (items : list value) (e : error) (w : W) :
  Iterator.find (pure_callback p) {| ref := RGen (failing_source items e) |} w
  = (w, match List.find (hit p) (with_index 0 items) with
        | Some c => Ok (fst c)
        | None => Throw e
        end)
  /\ Iterator.forEach (pure_callback f)
       {| ref := RGen (failing_source items e) |} w
     = (w, Throw e)
  /\ Iterator.intoArray array_like {| ref := RGen (failing_source items e) |} w
     = (w, Throw e)
  /\ (mapped <- Iterator.map (pure_callback f)
                  {| ref := RGen (failing_source items e) |} ;;
      Iterator.intoArray array_like mapped) w
     = (w, Throw e)
  /\ (kept <- Iterator.filter (pure_callback p)
                {| ref := RGen (failing_source items e) |} ;;
      Iterator.intoArray array_like kept) w
     = (w, Throw e).
Proof.
  repeat apply conj.
  - unfold Iterator.find, bind, lift. cbn [ref get_iterator].
    apply find_loop_failing.
  - unfold Iterator.forEach, bind, lift. cbn [ref get_iterator].
    apply forEach_loop_failing.
  - apply drain_failing.
  - unfold bind. rewrite map_constructs. unfold Iterator.intoArray. cbn [ref].
    rewrite rawMap_started. cbn [ref get_iterator].
    now rewrite drain_rawMap_pure, drain_failing.
  - unfold bind. rewrite filter_constructs. unfold Iterator.intoArray.
    cbn [ref]. rewrite rawFilter_started. cbn [ref get_iterator].
    now rewrite drain_rawFilter_pure, drain_failing.
Qed.

Lemma search_loops_over_images (p f : value -> Z -> value)
  (items : list value) :
  forall (i j : Z) (w : W),
    Iterator.find_loop (pure_callback p) j
      (Iterator.rawMap_loop (pure_callback f) i (array_iter items)) w
    = Iterator.find_loop (pure_callback p) j
        (array_iter (List.map (image_at f) (with_index i items))) w
    /\ Iterator.findIndex_loop (pure_callback p) j
         (Iterator.rawMap_loop (pure_callback f) i (array_iter items)) w
       = Iterator.findIndex_loop (pure_callback p) j
           (array_iter (List.map (image_at f) (with_index i items))) w.
Proof.
  induction items as [|x items IH]; intros i j w; simpl.
  - split; reflexivity.
  - change (image_at f (x, i)) with (f x i).
    destruct (truthy (p (f x i) (j + 1))); simpl.
    + split; reflexivity.
    + apply IH.
Qed.

(** X23.  A mapped source is searched as the array of its images would be:
    evaluating lazily changes no answer. *)
Theorem find_over_map_is_find_over_images (p f : value -> Z -> value)
  (l l' : loc) (items : list value) (w : W) :
  (mapped <- Iterator.map (pure_callback f) (wrap_array l items) ;;
   Iterator.find (pure_callback p) mapped) w
  = Iterator.find (pure_callback p)
      (wrap_array l' (List.map (image_at f) (with_index 0 items))) w
  /\ (mapped <- Iterator.map (pure_callback f) (wrap_array l items) ;;
      Iterator.findIndex (pure_callback p) mapped) w
     = Iterator.findIndex (pure_callback p)
         (wrap_array l' (List.map (image_at f) (with_index 0 items))) w.
Proof.
  unfold bind. rewrite map_constructs.
  unfold Iterator.find, Iterator.findIndex, bind, lift, Iterator.rawMap.
  cbn [ref wrap_array get_iterator].
  rewrite (for_of_started _ (array_iter items)) by reflexivity.
  apply search_loops_over_images.
Qed.

End Failing.

(** ** Keys kept once *)

Section AssocOrder.

Context {K T : Type} (same : K -> K -> bool) (class : K -> T).
Hypothesis same_class : forall a b, same a b = true <-> class a = class b.

Lemma assoc_get_absent (key : K) (m : list (K * value)) :
  existsb (fun s => same s key) (List.map fst m) = false ->
  assoc_get same key m = VUndefined.
Proof.
  induction m as [|[k v] m IH]; simpl; intros H.
  - reflexivity.
  - apply orb_false_elim in H. destruct H as [Hk H]. rewrite Hk. now apply IH.
Qed.

Lemma distinct_snoc (seen : list K) (k : K) :
  distinct same seen = true ->
  existsb (fun s => same s k) seen = false ->
  distinct same (seen ++ [k]) = true.
Proof.
  induction seen as [|s seen IH]; simpl; intros Hd Hk.
  - reflexivity.
  - apply andb_prop in Hd. destruct Hd as [Hs Hd].
    apply orb_false_elim in Hk. destruct Hk as [Hsk Hk].
    rewrite existsb_app. simpl. rewrite Hsk, orb_false_r, Hs. simpl.
    now apply IH.
Qed.

Lemma see_distinct (seen : list K) (k : K) :
  distinct same seen = true -> distinct same (see same seen k) = true.
Proof.
  intros Hd. unfold see.
  destruct (existsb (fun s => same s k) seen) eqn:E; [exact Hd|].
  now apply distinct_snoc.
Qed.

Lemma fold_see_distinct (keys : list K) :
  forall seen,
    distinct same seen = true ->
    distinct same (fold_left (see same) keys seen) = true.
Proof.
  induction keys as [|k keys IH]; intros seen Hd; simpl.
  - exact Hd.
  - apply IH. now apply see_distinct.
Qed.

Lemma fold_see_members (key : K) (keys : list K) :
  forall seen,
    existsb (fun s => same s key) (fold_left (see same) keys seen)
    = existsb (fun s => same s key) seen || existsb (fun s => same s key) keys.
Proof.
  induction keys as [|k keys IH]; intros seen; simpl.
  - now rewrite orb_false_r.
  - rewrite IH. unfold see.
    destruct (existsb (fun s => same s k) seen) eqn:E.
    + destruct (same k key) eqn:Ek; [|reflexivity].
      apply existsb_exists in E. destruct E as [s [Hin Hs]].
      assert (Hsk : existsb (fun s => same s key) seen = true).
      { apply existsb_exists. exists s. split; [exact Hin|].
        now rewrite (same_congr same class same_class _ _ key Hs). }
      now rewrite Hsk.
    + rewrite existsb_app. simpl. now rewrite orb_false_r, orb_assoc.
Qed.

Lemma fold_see_fresh (keys : list K) :
  forall seen,
    distinct same (seen ++ keys) = true ->
    fold_left (see same) keys seen = seen ++ keys.
Proof.
  induction keys as [|k keys IH]; intros seen Hd; simpl.
  - now rewrite app_nil_r.
  - unfold see at 2.
    rewrite (distinct_app_fresh same _ _ _ Hd).
    rewrite IH; rewrite <- app_assoc; [reflexivity | exact Hd].
Qed.

(** In a store with distinct keys every value is found under its key. *)
Lemma values_by_keys (m : list (K * value)) :
  distinct same (List.map fst m) = true ->
  List.map snd m = List.map (fun k => assoc_get same k m) (List.map fst m).
Proof.
  induction m as [|[k v] m IH]; simpl; intros Hd.
  - reflexivity.
  - apply andb_prop in Hd. destruct Hd as [Hk Hd].
    rewrite (same_refl same class same_class). f_equal.
    rewrite (IH Hd). apply map_ext_in. intros k' Hin.
    destruct (same k k') eqn:E; [|reflexivity].
    apply negb_true_iff in Hk.
    assert (existsb (same k) (List.map fst m) = true)
      by (apply existsb_exists; eauto).
    congruence.
Qed.

(** Storing pairs one after the other: one value for each key, the keys in
    the order they were first seen, each with the value stored last. *)
Lemma fold_values (pairs : list (K * value)) :
  List.map snd (fold_left (store same) pairs [])
  = List.map (fun k => last_stored same k pairs)
      (first_seen same (List.map fst pairs)).
Proof.
  rewrite values_by_keys.
  - rewrite (fold_keys same). simpl. apply map_ext. intros k.
    unfold last_stored. now rewrite (fold_get same class same_class).
  - rewrite (fold_keys same). now apply fold_see_distinct.
Qed.

End AssocOrder.

(** ** Removing duplicates from an array *)

Lemma truthy_not_nullish (v : value) : truthy v = true -> nullish v = false.
Proof. now destruct v. Qed.

Lemma assoc_get_truthy (key : value) (m : jsmap) :
  forallb truthy (List.map snd m) = true ->
  truthy (coalesce (map_get key m) (VBool true)) = true.
Proof.
  unfold map_get.
  induction m as [|[k v] m IH]; simpl; intros H.
  - reflexivity.
  - apply andb_prop in H. destruct H as [Hv H].
    destruct (same_value_zero k key); [|now apply IH].
    unfold coalesce. now rewrite (truthy_not_nullish _ Hv).
Qed.

Lemma assoc_set_truthy (key v : value) (m : jsmap) :
  truthy v = true ->
  forallb truthy (List.map snd m) = true ->
  forallb truthy (List.map snd (map_set key v m)) = true.
Proof.
  unfold map_set. intros Hv.
  induction m as [|[k x] m IH]; simpl; intros H.
  - now rewrite Hv.
  - apply andb_prop in H. destruct H as [Hx H].
    destruct (same_value_zero k key); simpl.
    + now rewrite Hv, H.
    + now rewrite Hx, IH.
Qed.

Section Dedupe.

Context {W : Type}.
Variable key : value -> value.
Variable merge : value -> value -> W -> W * value.

Lemma dedupe_loop_distinct (items : list value) :
  forall (m0 : jsmap) (index : Z) (w : W),
    distinct same_value_zero (List.map fst m0 ++ List.map key items) = true ->
    Iterator.reduce_loop (Iterator.dedupe_step (identify_by key) merge)
      m0 index (array_iter items) w
    = (w, Ok (m0 ++ keyed key items)).
Proof.
  induction items as [|x items IH]; intros m0 index w Hd; simpl.
  - now rewrite app_nil_r.
  - unfold Iterator.dedupe_step at 1. unfold identify_by at 1.
    pose proof (distinct_app_fresh same_value_zero _ _ _ Hd) as Hfresh.
    unfold map_get. rewrite (assoc_get_absent same_value_zero _ _ Hfresh).
    cbn [coalesce nullish truthy].
    unfold map_set. rewrite (assoc_set_fresh same_value_zero _ _ _ Hfresh).
    rewrite IH.
    + now rewrite <- app_assoc.
    + rewrite map_app. simpl. now rewrite <- app_assoc.
Qed.

Lemma dedupe_loop_truthy (items : list value) :
  forall (m0 : jsmap) (index : Z) (w : W),
    forallb truthy items = true ->
    forallb truthy (List.map snd m0) = true ->
    Iterator.reduce_loop (Iterator.dedupe_step (identify_by key) merge)
      m0 index (array_iter items) w
    = (w, Ok (fold_left (store same_value_zero) (keyed key items) m0)).
Proof.
  induction items as [|x items IH]; intros m0 index w Hall Hm0; simpl.
  - reflexivity.
  - simpl in Hall. apply andb_prop in Hall. destruct Hall as [Hx Hall].
    unfold Iterator.dedupe_step at 1. unfold identify_by at 1.
    rewrite (assoc_get_truthy _ _ Hm0).
    rewrite IH; [reflexivity | exact Hall |].
    now apply assoc_set_truthy.
Qed.

(** X17.  When no two items have the same key, [dedupe] yields the items as
    they are and in order, and never calls [merge]. *)
Theorem dedupe_keeps_distinct_items
  (array_like : value -> result (list value)) (l : loc)
  (items : list value) (w : W) :
  distinct same_value_zero (List.map key items) = true ->
  (unique <- Iterator.dedupe (identify_by key) merge (wrap_array l items) ;;
   Iterator.intoArray array_like unique) w
  = (w, Ok items).
Proof.
  intros Hd.
  unfold Iterator.dedupe, Iterator.reduce, bind, lift.
  cbn [ref wrap_array get_iterator].
  rewrite (dedupe_loop_distinct items [] 0 w Hd).
  unfold Iterator.new, bind, lift, ret, Iterator.intoArray. simpl.
  rewrite drain_array. unfold map_values, keyed.
  now rewrite List.map_map, List.map_id.
Qed.

(** X18.  On truthy items, objects for instance, [dedupe] yields one item
    for each key, the keys in the order they were first seen and each with
    the last item that has it; [merge] is never called, whatever it is. *)
Theorem dedupe_yields_last_item_per_key
  (array_like : value -> result (list value)) (l : loc)
  (items : list value) (w : W) :
  forallb truthy items = true ->
  (unique <- Iterator.dedupe (identify_by key) merge (wrap_array l items) ;;
   Iterator.intoArray array_like unique) w
  = (w, Ok (List.map
              (fun k => last_stored same_value_zero k (keyed key items))
              (first_seen same_value_zero (List.map key items)))).
Proof.
  intros Hall.
  unfold Iterator.dedupe, Iterator.reduce, bind, lift.
  cbn [ref wrap_array get_iterator].
  rewrite (dedupe_loop_truthy items [] 0 w Hall eq_refl).
  unfold Iterator.new, bind, lift, ret, Iterator.intoArray. simpl.
  rewrite drain_array. unfold map_values.
  rewrite (fold_values same_value_zero key_of same_value_zero_class).
  unfold keyed. now rewrite List.map_map.
Qed.

End Dedupe.

(** ** The other sinks *)

Lemma set_add_see (v : value) (s : jsset) :
  set_add v s = see same_value_zero s v.
Proof.
  unfold see. induction s as [|x s IH]; simpl.
  - reflexivity.
  - destruct (same_value_zero x v); simpl; [reflexivity|].
    rewrite IH. now destruct (existsb _ s).
Qed.

Lemma entries_with_string_keys (exponent_form : Z -> string) (name : string)
  (pairs : list (value * value)) :
  forallb has_string_key pairs = true ->
  match List.find (fun kv => String.eqb (fst kv) name)
          (List.map (named exponent_form) pairs)
  with
  | Some kv => Some (snd kv)
  | None => None
  end
  = match List.find (fun kv => same_value_zero (fst kv) (VString name)) pairs
    with
    | Some kv => Some (snd kv)
    | None => None
    end.
Proof.
  induction pairs as [|[k v] pairs IH]; simpl; intros H.
  - reflexivity.
  - apply andb_prop in H. destruct H as [Hk H].
    destruct k; try discriminate. simpl.
    destruct (String.eqb s name); [reflexivity | now apply IH].
Qed.

Section OtherSinks.

Context {W : Type}.

Lemma Set_add_values_array (items : list value) :
  forall (s0 : jsset) (w : W),
    Iterator.Set_add_values (array_iter items) s0 w
    = (w, Ok (fold_left (see same_value_zero) items s0)).
Proof.
  induction items as [|x items IH]; intros s0 w; simpl.
  - reflexivity.
  - now rewrite IH, set_add_see.
Qed.

Lemma intoSet_array (l : loc) (items : list value) (w : W) :
  Iterator.intoSet (wrap_array l items) w
  = (w, Ok (first_seen same_value_zero items)).
Proof.
  unfold Iterator.intoSet, wrap_array, bind, lift. cbn [ref get_iterator].
  apply Set_add_values_array.
Qed.

(** X19.  [intoSet] keeps each element once, in the order of the first
    occurrences: no two members are the same under SameValueZero (NaN
    included), a value is a member exactly when it is an element of the
    source, and sinking the members again gives the same Set. *)
Theorem intoSet_keeps_each_element_once (l l' : loc) (items : list value)
  (v : value) (w : W) :
  exists s : jsset,
    Iterator.intoSet (wrap_array l items) w = (w, Ok s)
    /\ s = first_seen same_value_zero items
    /\ distinct same_value_zero s = true
    /\ existsb (fun x => same_value_zero x v) s
       = existsb (fun x => same_value_zero x v) items
    /\ Iterator.intoSet (wrap_array l' s) w = (w, Ok s).
Proof.
  exists (first_seen same_value_zero items).
  assert (Hd : distinct same_value_zero (first_seen same_value_zero items) = true)
    by now apply fold_see_distinct.
  repeat apply conj.
  - apply intoSet_array.
  - reflexivity.
  - exact Hd.
  - unfold first_seen.
    now rewrite (fold_see_members same_value_zero key_of same_value_zero_class).
  - rewrite intoSet_array. unfold first_seen at 1.
    now rewrite (fold_see_fresh same_value_zero).
Qed.

Lemma Map_add_entries_primitive (items : list value) :
  forall (m0 : jsmap) (w : W),
    existsb is_primitive items = true ->
    Iterator.Map_add_entries (array_iter items) m0 w = (w, Throw not_an_entry).
Proof.
  induction items as [|x items IH]; intros m0 w; simpl.
  - discriminate.
  - unfold is_primitive at 1. destruct (is_object x); simpl.
    + apply IH.
    + reflexivity.
Qed.

Lemma Object_add_entries_primitive (exponent_form : Z -> string)
  (items : list value) :
  forall (fields0 : list (string * value)) (w : W),
    existsb is_primitive items = true ->
    Iterator.Object_add_entries exponent_form (array_iter items) fields0 w
    = (w, Throw not_an_entry).
Proof.
  induction items as [|x items IH]; intros fields0 w; simpl.
  - discriminate.
  - unfold is_primitive at 1. destruct (is_object x); simpl.
    + apply IH.
    + reflexivity.
Qed.

(** X20.  A source with a primitive among its elements cannot be sunk into
    a Map or an object: both sinks throw a TypeError and return nothing,
    wherever the primitive stands. *)
Theorem entry_sinks_reject_primitives (exponent_form : Z -> string)
  (l : loc) (items : list value) (w : W) :
  existsb is_primitive items = true ->
  Iterator.intoMap (wrap_array l items) w = (w, Throw not_an_entry)
  /\ Iterator.intoObject exponent_form (wrap_array l items) w
     = (w, Throw not_an_entry).
Proof.
  intros H. split.
  - unfold Iterator.intoMap, wrap_array, bind, lift. cbn [ref get_iterator].
    now apply Map_add_entries_primitive.
  - unfold Iterator.intoObject, wrap_array, bind, lift. cbn [ref get_iterator].
    now apply Object_add_entries_primitive.
Qed.

(** X21.  On entries with string keys the two sinks agree: the object from
    [intoObject] has an own property [name] exactly when the Map from
    [intoMap] has the key [name], and the two hold the same value. *)
Theorem intoObject_agrees_with_intoMap (exponent_form : Z -> string)
  (l : loc) (entries : list (loc * (value * value))) (name : string)
  (w : W) :
  forallb has_string_key (List.map snd entries) = true ->
  exists (m : jsmap) (fields : list (string * value)),
    Iterator.intoMap (wrap_array l (List.map entry_array entries)) w = (w, Ok m)
    /\ Iterator.intoObject exponent_form
         (wrap_array l (List.map entry_array entries)) w
       = (w, Ok fields)
    /\ own_property name fields = map_find (VString name) m.
Proof.
  intros Hkeys. eexists. eexists.
  split; [apply intoMap_array|]. split; [apply intoObject_array|].
  unfold map_find. rewrite fold_own.
  rewrite (fold_find same_value_zero _ same_value_zero_class).
  rewrite <- List.map_rev. apply entries_with_string_keys.
  rewrite forallb_forall in *. intros kv Hin. apply Hkeys.
  now apply in_rev.
Qed.

(** X22.  [intoArray] collects what iterating the wrapper yields: whenever
    the wrapped value iterates, the array holds the elements of that
    iteration in order, and fails as it fails; the host's conversion of
    array-likes plays no part.  Wrapping an array and collecting it gives
    its elements back. *)
Theorem intoArray_collects_the_iteration
  (array_like : value -> result (list value)) (this : Wrapper W) (l : loc)
  (items : list value) (w : W) :
  exposes_iteration (ref this) = true ->
  Iterator.intoArray array_like this w = Iterator.spread this w
  /\ (wrapped <- Iterator.new (RVal (VArray l items)) ;;
      Iterator.intoArray array_like wrapped) w
     = (w, Ok items).
Proof.
  intros Hiter. split.
  - rewrite spread_started. unfold Iterator.intoArray.
    destruct this as [[[| |b|n|s|a xs|a [held|] fields]|g]];
      try discriminate; reflexivity.
  - unfold bind, Iterator.new, bind, lift, ret, Iterator.intoArray. simpl.
    apply drain_array.
Qed.

End OtherSinks.

(** ** Duplicates among falsy items *)

Lemma same_value_zero_falsy (k x : value) :
  falsy_defined x = true -> same_value_zero k x = true -> k = x.
Proof.
  unfold falsy_defined.
  destruct x as [| |[|]|[|y]|s|a xs|a h f]; simpl; try discriminate;
    destruct k as [| |c|[|z]|t|b ys|b h' f']; simpl; try discriminate;
    intros Hx Hk; try reflexivity.
  - now destruct c.
  - apply Z.eqb_eq in Hk.
    rewrite andb_true_r, negb_involutive in Hx. apply Z.eqb_eq in Hx.
    now subst.
  - apply String.eqb_eq in Hk. now subst.
Qed.

Lemma stored_under_itself (x : value) (seen : list value) :
  falsy_defined x = true ->
  existsb (fun s => same_value_zero s x) seen = true ->
  map_get x (List.map under_itself seen) = x
  /\ map_set x x (List.map under_itself seen) = List.map under_itself seen.
Proof.
  intros Hx. unfold map_get, map_set.
  induction seen as [|k seen IH]; simpl; intros H.
  - discriminate.
  - destruct (same_value_zero k x) eqn:E.
    + rewrite (same_value_zero_falsy _ _ Hx E). now split.
    + simpl in H. destruct (IH H) as [Hget Hset]. now rewrite Hget, Hset.
Qed.

Section DedupeFalsy.

Context {W : Type}.

Lemma dedupe_loop_falsy (items : list value) :
  forall (seen : list value) (index : Z) (w : W),
    forallb falsy_defined items = true ->
    Iterator.reduce_loop
      (Iterator.dedupe_step Iterator.default_identify Iterator.default_merge)
      (List.map under_itself seen) index (array_iter items) w
    = (w, Ok (List.map under_itself
                (fold_left (see same_value_zero) items seen))).
Proof.
  induction items as [|x items IH]; intros seen index w Hall; simpl.
  - reflexivity.
  - simpl in Hall. apply andb_prop in Hall. destruct Hall as [Hx Hall].
    unfold Iterator.dedupe_step at 1.
    unfold Iterator.default_identify at 1, Iterator.default_merge at 1.
    unfold see at 2.
    destruct (existsb (fun s => same_value_zero s x) seen) eqn:E.
    + destruct (stored_under_itself x seen Hx E) as [Hget Hset].
      rewrite Hget.
      unfold falsy_defined in Hx. apply andb_prop in Hx.
      destruct Hx as [Hfalsy Hdefined].
      apply negb_true_iff in Hfalsy. apply negb_true_iff in Hdefined.
      unfold coalesce. rewrite Hdefined, Hfalsy, Hset. now apply IH.
    + assert (Hfresh : existsb (fun s => same_value_zero s x)
                         (List.map fst (List.map under_itself seen)) = false).
      { rewrite List.map_map. simpl. now rewrite List.map_id. }
      unfold map_get. rewrite (assoc_get_absent same_value_zero _ _ Hfresh).
      cbn [coalesce nullish truthy].
      unfold map_set. rewrite (assoc_set_fresh same_value_zero _ _ _ Hfresh).
      change [(x, x)] with (List.map under_itself [x]).
      rewrite <- List.map_app. now apply IH.
Qed.

(** X24.  On items that are falsy without being [undefined] or [null]
    (false, 0, NaN, the empty string) [dedupe()] with its defaults keeps the
    first occurrence of each item, in order. *)
Theorem dedupe_keeps_first_falsy_item
  (array_like : value -> result (list value)) (l : loc)
  (items : list value) (w : W) :
  forallb falsy_defined items = true ->
  (unique <- Iterator.dedupe Iterator.default_identify Iterator.default_merge
               (wrap_array l items) ;;
   Iterator.intoArray array_like unique) w
  = (w, Ok (first_seen same_value_zero items)).
Proof.
  intros Hall.
  unfold Iterator.dedupe, Iterator.reduce, bind, lift.
  cbn [ref wrap_array get_iterator].
  change (@nil (value * value)) with (List.map under_itself []).
  rewrite (dedupe_loop_falsy items [] 0 w Hall).
  unfold Iterator.new, bind, lift, ret, Iterator.intoArray. simpl.
  rewrite drain_array. unfold map_values, first_seen.
  now rewrite List.map_map, List.map_id.
Qed.

End DedupeFalsy.

(** ** Further properties at concrete inputs *)

Lemma some_exists_on_truthy_elements_witness :
  forallb truthy [num 1; num 2; num 3] = true
  /\ Iterator.some (pure_callback (equals (num 2)))
       (wrap_array 1 [num 1; num 2; num 3]) tt
     = (tt, Ok (existsb (hit (equals (num 2)))
                  (with_index 0 [num 1; num 2; num 3]))).
Proof.
  split; [reflexivity|].
  apply (some_exists_on_truthy_elements (W := unit)). reflexivity.
Defined.

Lemma includes_fromIndex_edges_witness :
  -2 <= 0
  /\ Z.of_nat (List.length [num 1; num 2]) <= 2
  /\ Iterator.includes (num 2) (Int (-2)) (wrap_array 1 [num 1; num 2]) tt
     = Iterator.includes (num 2) (Int 0) (wrap_array 1 [num 1; num 2]) tt
  /\ Iterator.includes (num 2) (Int 2) (wrap_array 1 [num 1; num 2]) tt
     = (tt, Ok false).
Proof.
  split; [lia|]. split; [simpl; lia|].
  destruct (includes_fromIndex_edges (W := unit) (num 2) (-2) 2 1
              [num 1; num 2] tt) as (Hlow & Hhigh & _);
    [lia | simpl; lia |].
  split; [exact Hlow | exact Hhigh].
Defined.

Lemma flat_one_expands_one_level_witness :
  Iterator.spread (W := unit)
    (wrap_array 1 [VArray 2 [num 1; num 2]; leaf 3; VArray 4 []]) tt
  = (tt, Ok [VArray 2 [num 1; num 2]; leaf 3; VArray 4 []])
  /\ forallb (fun item => is_array item || is_record item)
       [VArray 2 [num 1; num 2]; leaf 3; VArray 4 []] = true
  /\ (flattened <- Iterator.flat 1
                     (wrap_array 1 [VArray 2 [num 1; num 2]; leaf 3; VArray 4 []]) ;;
      Iterator.intoArray (fun _ => Ok []) flattened) tt
     = (tt, Ok [num 1; num 2; leaf 3]).
Proof.
  split; [reflexivity|]. split; [reflexivity|].
  apply (flat_one_expands_one_level (W := unit) (fun _ => Ok [])
           (wrap_array 1 [VArray 2 [num 1; num 2]; leaf 3; VArray 4 []])
           tt tt [VArray 2 [num 1; num 2]; leaf 3; VArray 4 []]);
    reflexivity.
Defined.

Lemma flat_passes_records_witness :
  Iterator.spread (W := unit) (wrap_array 1 [leaf 2; leaf 3]) tt
  = (tt, Ok [leaf 2; leaf 3])
  /\ forallb is_record [leaf 2; leaf 3] = true
  /\ (flattened <- Iterator.flat 3 (wrap_array 1 [leaf 2; leaf 3]) ;;
      Iterator.intoArray (fun _ => Ok []) flattened) tt
     = (tt, Ok [leaf 2; leaf 3]).
Proof.
  split; [reflexivity|]. split; [reflexivity|].
  apply (flat_passes_records (W := unit) (fun _ => Ok []) 3
           (wrap_array 1 [leaf 2; leaf 3]) tt tt [leaf 2; leaf 3]);
    reflexivity.
Defined.

Lemma flatMap_concatenates_witness :
  Iterator.spread (W := unit) (wrap_array 1 [num 5; num 6]) tt
  = (tt, Ok [num 5; num 6])
  /\ forallb is_array
       (List.map (image_at (fun item index => VArray 9 [item; num index]))
          (with_index 0 [num 5; num 6])) = true
  /\ (flattened <- Iterator.flatMap
                     (pure_callback (fun item index => VArray 9 [item; num index]))
                     1 (wrap_array 1 [num 5; num 6]) ;;
      Iterator.intoArray (fun _ => Ok []) flattened) tt
     = (tt, Ok [num 5; num 0; num 6; num 1]).
Proof.
  split; [reflexivity|]. split; [reflexivity|].
  apply (flatMap_concatenates (W := unit) (fun _ => Ok [])
           (fun item index => VArray 9 [item; num index])
           (wrap_array 1 [num 5; num 6]) tt tt [num 5; num 6]);
    reflexivity.
Defined.

Lemma dedupe_keeps_distinct_items_witness :
  distinct same_value_zero
    (List.map (fun item : value => item) [num 0; VString "a"; num 1]) = true
  /\ (unique <- Iterator.dedupe (identify_by (fun item => item))
                  Iterator.default_merge
                  (wrap_array 1 [num 0; VString "a"; num 1]) ;;
      Iterator.intoArray (fun _ => Ok []) unique) tt
     = (tt, Ok [num 0; VString "a"; num 1]).
Proof.
  split; [reflexivity|].
  apply (dedupe_keeps_distinct_items (W := unit) (fun item => item)
           Iterator.default_merge (fun _ => Ok []) 1
           [num 0; VString "a"; num 1] tt).
  reflexivity.
Defined.

Lemma dedupe_yields_last_item_per_key_witness :
  forallb truthy [item_a; item_b; item_c] = true
  /\ (unique <- Iterator.dedupe
                  (identify_by (fun item => snd (identify_id item tt)))
                  Iterator.default_merge
                  (wrap_array 1 [item_a; item_b; item_c]) ;;
      Iterator.intoArray (fun _ => Ok []) unique) tt
     = (tt, Ok [item_c; item_b]).
Proof.
  split; [reflexivity|].
  apply (dedupe_yields_last_item_per_key (W := unit)
           (fun item => snd (identify_id item tt))
           Iterator.default_merge (fun _ => Ok []) 1
           [item_a; item_b; item_c] tt).
  reflexivity.
Defined.

Lemma entry_sinks_reject_primitives_witness :
  existsb is_primitive [entry_array pair_a; VString "ab"] = true
  /\ Iterator.intoMap (wrap_array 1 [entry_array pair_a; VString "ab"]) tt
     = (tt, Throw not_an_entry)
  /\ Iterator.intoObject string_of_Z
       (wrap_array 1 [entry_array pair_a; VString "ab"]) tt
     = (tt, Throw not_an_entry).
Proof.
  split; [reflexivity|].
  apply (entry_sinks_reject_primitives (W := unit) string_of_Z 1
           [entry_array pair_a; VString "ab"] tt).
  reflexivity.
Defined.

Lemma intoObject_agrees_with_intoMap_witness :
  forallb has_string_key (List.map snd [pair_a; pair_b]) = true
  /\ exists (m : jsmap) (fields : list (string * value)),
       Iterator.intoMap
         (wrap_array 1 (List.map entry_array [pair_a; pair_b])) tt
       = (tt, Ok m)
       /\ Iterator.intoObject string_of_Z
            (wrap_array 1 (List.map entry_array [pair_a; pair_b])) tt
          = (tt, Ok fields)
       /\ own_property "b" fields = map_find (VString "b") m.
Proof.
  split; [reflexivity|].
  apply (intoObject_agrees_with_intoMap (W := unit) string_of_Z 1
           [pair_a; pair_b] "b" tt).
  reflexivity.
Defined.

Lemma intoArray_collects_the_iteration_witness :
  exposes_iteration (W := unit) (RGen (array_iter [num 1; num 2])) = true
  /\ Iterator.intoArray (fun _ => Ok [])
       {| ref := RGen (array_iter [num 1; num 2]) |} tt
     = Iterator.spread {| ref := RGen (array_iter [num 1; num 2]) |} tt.
Proof.
  split; [reflexivity|].
  apply (intoArray_collects_the_iteration (W := unit) (fun _ => Ok [])
           {| ref := RGen (array_iter [num 1; num 2]) |} 1 [] tt).
  reflexivity.
Defined.

Lemma dedupe_keeps_first_falsy_item_witness :
  forallb falsy_defined [num 0; VString EmptyString; num 0; VBool false] = true
  /\ (unique <- Iterator.dedupe Iterator.default_identify
                  Iterator.default_merge
                  (wrap_array 1 [num 0; VString EmptyString; num 0; VBool false]) ;;
      Iterator.intoArray (fun _ => Ok []) unique) tt
     = (tt, Ok [num 0; VString EmptyString; VBool false]).
Proof.
  split; [reflexivity|].
  apply (dedupe_keeps_first_falsy_item (W := unit) (fun _ => Ok []) 1
           [num 0; VString EmptyString; num 0; VBool false] tt).
  reflexivity.
Defined.

(** ** Pulling through the stages *)

Section Pulling.

Context {W : Type}.

Lemma find_loop_resume (lambda : callback W) (index : Z) (g : gen W) (w : W) :
  Iterator.find_loop lambda index g w
  = match resume g w with
    | Stop w1 => (w1, Ok VUndefined)
    | Raise w1 e => (w1, Throw e)
    | Yield w1 item rest =>
        let (w2, found) := lambda item (index + 1) w1 in
        if negb (truthy found) then Iterator.find_loop lambda (index + 1) rest w2
        else (w2, Ok item)
    end.
Proof. now destruct g. Qed.

Lemma yields_ext (ys : list value) (e : option error) (g g' : gen W) :
  (forall w, resume g w = resume g' w) -> yields ys e g -> yields ys e g'.
Proof.
  intros Hsame H. destruct ys as [|y ys]; simpl in *; intros w;
    rewrite <- Hsame; apply H.
Qed.

Lemma yields_array (items : list value) :
  yields (W := W) items None (array_iter items).
Proof.
  induction items as [|x items IH]; simpl; intros w.
  - reflexivity.
  - now exists (array_iter items).
Qed.

Lemma yields_then_raise (ys : list value) (err : error) :
  forall (g k : gen W),
    yields ys (Some err) g -> yields ys (Some err) (yield_all g k).
Proof.
  induction ys as [|y ys IH]; intros [r] k H; simpl in *; intros w.
  - now rewrite (H w).
  - destruct (H w) as (rest & Hr & Hrest). rewrite Hr.
    exists (yield_all rest k). split; [reflexivity | now apply IH].
Qed.

Lemma yields_then_more (ys zs : list value) (e : option error) :
  forall (g k : gen W),
    yields ys None g -> yields zs e k -> yields (ys ++ zs) e (yield_all g k).
Proof.
  induction ys as [|y ys IH]; intros [r] k Hg Hk.
  - simpl in Hg. apply (yields_ext _ _ k); [|exact Hk].
    intros w. simpl. now rewrite (Hg w).
  - simpl in *. intros w. destruct (Hg w) as (rest & Hr & Hrest). rewrite Hr.
    exists (yield_all rest k). split; [reflexivity | now apply IH].
Qed.

(** A flatten stage over an array yields what its elements contribute. *)
Lemma rawFlat_yields (depth : nat) :
  forall inner : list value,
    yields (W := W)
      (fst (chain (List.map (flat_item depth) inner)))
      (snd (chain (List.map (flat_item depth) inner)))
      (Iterator.rawFlat depth {| ref := RGen (array_iter inner) |}).
Proof.
  induction depth as [|d IHd]; induction inner as [|x inner IH].
  - intros w. simpl array_iter. now rewrite rawFlat_resume.
  - intros w. simpl array_iter. rewrite rawFlat_resume.
    exists (Iterator.rawFlat 0 {| ref := RGen (array_iter inner) |}).
    split; [reflexivity | exact IH].
  - intros w. simpl array_iter. now rewrite rawFlat_resume.
  - assert (Hpass :
              yields (x :: fst (chain (List.map (flat_item (S d)) inner)))
                (snd (chain (List.map (flat_item (S d)) inner)))
                (Gen (fun w : W =>
                        Yield w x
                          (Iterator.rawFlat (S d)
                             {| ref := RGen (array_iter inner) |})))).
    { intros w. eexists. split; [reflexivity | exact IH]. }
    destruct x as [| |b|n|s|a xs|a [held|] fields].
    1-5: intros w; simpl array_iter; now rewrite rawFlat_resume.
    + (* an array: its own elements at depth d, then the rest *)
      specialize (IHd xs).
      eapply yields_ext with
        (g := yield_all (Iterator.rawFlat d {| ref := RVal (VArray a xs) |})
                (Iterator.rawFlat (S d) {| ref := RGen (array_iter inner) |})).
      { intros w. simpl array_iter. now rewrite rawFlat_resume. }
      rewrite rawFlat_started. cbn [ref get_iterator].
      cbn [List.map flat_item chain].
      change (chain (List.map (flat_item d) xs)) with (flat_item (S d) (VArray a xs)) in *.
      destruct (flat_item (S d) (VArray a xs)) as [ys [err|]] eqn:E; simpl in *.
      * now apply yields_then_raise.
      * now apply yields_then_more.
    + (* an object whose Symbol.iterator is no function *)
      eapply yields_ext with
        (g := yield_all
                (Iterator.rawFlat d {| ref := RVal (VObject a (Some held) fields) |})
                (Iterator.rawFlat (S d) {| ref := RGen (array_iter inner) |})).
      { intros w. simpl array_iter. now rewrite rawFlat_resume. }
      rewrite rawFlat_started. cbn [ref get_iterator].
      intros w. reflexivity.
    + (* a record *)
      eapply yields_ext; [|exact Hpass].
      intros w. simpl array_iter. now rewrite rawFlat_resume.
Qed.

(** What the inner generator of an iterable element yields. *)
Lemma rawFlat_yields_item (d : nat) (y : value) :
  isIterator (W := W) (RVal y) = Ok true ->
  yields (W := W) (fst (flat_item (S d) y)) (snd (flat_item (S d) y))
    (Iterator.rawFlat d {| ref := RVal y |}).
Proof.
  destruct y as [| |b|n|s|a xs|a [held|] fields]; try discriminate; intros _.
  - rewrite rawFlat_started. cbn [ref get_iterator]. apply rawFlat_yields.
  - rewrite rawFlat_started. cbn [ref get_iterator]. intros w. reflexivity.
Qed.

(** A search that first goes through a generator yielding [ys]. *)
Lemma find_yield_all (p : value -> Z -> value) (ys : list value)
  (e : option error) :
  forall (g k : gen W) (index : Z) (w : W),
    yields ys e g ->
    Iterator.find_loop (pure_callback p) index (yield_all g k) w
    = match List.find (hit p) (with_index (index + 1) ys) with
      | Some c => (w, Ok (fst c))
      | None =>
          match e with
          | Some err => (w, Throw err)
          | None =>
              Iterator.find_loop (pure_callback p)
                (index + Z.of_nat (List.length ys)) k w
          end
      end.
Proof.
  induction ys as [|y ys IH]; intros [r] k index w Hg.
  - simpl in Hg. rewrite find_loop_resume. cbn [resume yield_all].
    rewrite (Hg w). destruct e as [err|]; [reflexivity|].
    cbn [with_index List.find List.length]. rewrite Z.add_0_r.
    symmetry. apply find_loop_resume.
  - simpl in Hg. destruct (Hg w) as (rest & Hr & Hrest).
    rewrite find_loop_resume. cbn [resume yield_all]. rewrite Hr.
    cbn [with_index List.find]. change (hit p (y, index + 1)) with (truthy (p y (index + 1))).
    unfold pure_callback at 1.
    destruct (truthy (p y (index + 1))); simpl negb; cbv iota.
    + reflexivity.
    + rewrite (IH rest k (index + 1) w Hrest).
      replace (index + Z.of_nat (List.length (y :: ys)))
        with (index + 1 + Z.of_nat (List.length ys))
        by (simpl List.length; lia).
      reflexivity.
Qed.

End Pulling.

Lemma emits_traced_source (items : list value) :
  emits (pulled_rows items) (traced_source items).
Proof.
  induction items as [|x items IH]; simpl; intros log.
  - reflexivity.
  - now exists (traced_source items).
Qed.

Lemma emits_mapped (f : value -> Z -> value) (items : list value) :
  forall index,
    emits (mapped_rows f index items)
      (Iterator.rawMap_loop (traced_callback f) index (traced_source items)).
Proof.
  induction items as [|x items IH]; intros index; simpl; intros log.
  - reflexivity.
  - exists (Iterator.rawMap_loop (traced_callback f) (index + 1)
              (traced_source items)).
    split; [now rewrite <- app_assoc | apply IH].
Qed.

(** A search over a flatten stage pulls the source as far as it needs. *)
Lemma find_flat_trace (p : value -> Z -> value) (depth : nat)
  (rows : list row) :
  forall (g : gen (list event)) (index : Z) (log : list event),
    emits rows g ->
    Iterator.find_loop (pure_callback p) index
      (Iterator.rawFlat depth {| ref := RGen g |}) log
    = (log ++ fst (flat_search p depth (index + 1) rows),
       snd (flat_search p depth (index + 1) rows)).
Proof.
  induction rows as [|[events y] rows IH]; intros [r] index log Hg.
  - simpl in Hg. rewrite find_loop_resume, rawFlat_resume.
    simpl in Hg. rewrite (Hg log). simpl. now rewrite app_nil_r.
  - simpl in Hg. destruct (Hg log) as (rest & Hr & Hrest).
    assert (Hpass :
              flat_item depth y = ([y], None) ->
              resume (Iterator.rawFlat depth {| ref := RGen (Gen r) |}) log
              = Yield (log ++ events) y
                  (Iterator.rawFlat depth {| ref := RGen rest |}) ->
              Iterator.find_loop (pure_callback p) index
                (Iterator.rawFlat depth {| ref := RGen (Gen r) |}) log
              = (log ++ fst (flat_search p depth (index + 1) ((events, y) :: rows)),
                 snd (flat_search p depth (index + 1) ((events, y) :: rows)))).
    { intros Hitem Hres. rewrite find_loop_resume, Hres.
      cbn [flat_search]. rewrite Hitem. cbn [fst snd with_index List.find].
      change (hit p (y, index + 1)) with (truthy (p y (index + 1))).
      unfold pure_callback at 1.
      destruct (truthy (p y (index + 1))); simpl negb; cbv iota.
      - reflexivity.
      - rewrite (IH rest (index + 1) (log ++ events) Hrest).
        cbn [List.length fst snd].
        replace (index + 1 + Z.of_nat 1) with (index + 1 + 1) by lia.
        now rewrite <- app_assoc. }
    destruct depth as [|d].
    + apply Hpass; [reflexivity|]. rewrite rawFlat_resume. simpl in Hr.
      now rewrite Hr.
    + destruct (isIterator (W := list event) (RVal y)) as [[|]|e] eqn:Hiter.
      * (* an iterable element: through its inner generator, then on *)
        rewrite find_loop_resume, rawFlat_resume. simpl in Hr. rewrite Hr, Hiter.
        rewrite <- find_loop_resume.
        rewrite (find_yield_all p _ _ _ _ _ _ (rawFlat_yields_item d y Hiter)).
        cbn [flat_search].
        destruct (List.find (hit p)
                    (with_index (index + 1) (fst (flat_item (S d) y))))
          as [c|]; [reflexivity|].
        destruct (snd (flat_item (S d) y)) as [err|]; [reflexivity|].
        rewrite (IH rest _ (log ++ events) Hrest). cbn [fst snd].
        replace (index + Z.of_nat (List.length (fst (flat_item (S d) y))) + 1)
          with (index + 1 + Z.of_nat (List.length (fst (flat_item (S d) y))))
          by lia.
        now rewrite <- app_assoc.
      * (* a record *)
        apply Hpass.
        -- destruct y as [| |b|n|s|a xs|a [held|] fields]; try discriminate;
             reflexivity.
        -- rewrite rawFlat_resume. simpl in Hr. now rewrite Hr, Hiter.
      * (* a primitive: the membership test throws *)
        rewrite find_loop_resume, rawFlat_resume. simpl in Hr. rewrite Hr, Hiter.
        cbn [flat_search].
        assert (Hitem : flat_item (S d) y = ([], Some e)).
        { destruct y as [| |b|n|s|a xs|a [held|] fields]; try discriminate;
            simpl in Hiter; injection Hiter as <-; reflexivity. }
        rewrite Hitem. reflexivity.
Qed.

(** A search over a filter stage pulls the source as far as it needs. *)
Lemma find_filter_trace (q p : value -> Z -> value) (items : list value) :
  forall (i j : Z) (log : list event),
    Iterator.find_loop (pure_callback p) (j - 1)
      (Gen (Iterator.rawFilter_next (traced_callback q) i (traced_source items)))
      log
    = (log ++ events_of (fst (filter_search q p i j items)),
       Ok (snd (filter_search q p i j items))).
Proof.
  induction items as [|x items IH]; intros i j log.
  - simpl. now rewrite app_nil_r.
  - specialize (IH (i + 1)). simpl in *.
    destruct (truthy (q x i)); simpl.
    + replace (j - 1 + 1) with j by lia.
      destruct (truthy (p x j)); simpl.
      * now rewrite <- app_assoc.
      * specialize (IH (j + 1) ((log ++ [Pulled x]) ++ [Called x i])).
        replace (j + 1 - 1) with j in IH by lia.
        rewrite IH. now rewrite <- !app_assoc.
    + rewrite (IH j ((log ++ [Pulled x]) ++ [Called x i])).
      now rewrite <- !app_assoc.
Qed.

(** C5.  Building a chain of [map], [filter], [flat] and [flatMap] leaves
    the world untouched: no callback runs and no source element is pulled.
    Evaluation happens when a search pulls, one element at a time and in
    source order, and stops with the search: over a one-shot source that
    records each element it hands out,
    - under [map] each element is pulled and then mapped before the next is
      pulled, up to the first element whose image the search accepts;
    - under [filter] each element is pulled and then tested, up to the
      first element that is kept and accepted;
    - under [flat] and [flatMap], at any depth, the elements are pulled (and
      mapped) up to the first one whose contribution to the flattened
      sequence holds an accepted element, or fails;
    and nothing after that is pulled or computed.  When the first mapped
    element is accepted, the map callback has run exactly once, however
    long the source is. *)
Theorem lazy_chain_evaluates_on_demand (W : Type) (lambda : callback W)
  (depth : nat) (this : Wrapper W) (w : W)
  (f p q : value -> Z -> value) (items : list value)
  (x y : value) (rest : list value) :
  (Iterator.map lambda this w
     = (w, Ok {| ref := RGen (Iterator.rawMap lambda this) |})
   /\ Iterator.filter lambda this w
     = (w, Ok {| ref := RGen (Iterator.rawFilter lambda this) |})
   /\ Iterator.flat depth this w
     = (w, Ok {| ref := RGen (Iterator.rawFlat depth this) |})
   /\ Iterator.flatMap lambda depth this w
     = (w, Ok {| ref := RGen (Iterator.rawFlat depth
                                {| ref := RGen (Iterator.rawMap lambda this) |}) |}))
  /\ (mapped <- Iterator.map (traced_callback f)
                  {| ref := RGen (traced_source items) |} ;;
      Iterator.find (pure_callback p) mapped) []
     = (events_of (with_index 0 (needed f p 0 items)),
        Ok match List.find (hit p)
                   (with_index 0 (List.map (image_at f) (with_index 0 items)))
           with
           | Some c => fst c
           | None => VUndefined
           end)
  /\ (kept <- Iterator.filter (traced_callback q)
                {| ref := RGen (traced_source items) |} ;;
      Iterator.find (pure_callback p) kept) []
     = (events_of (fst (filter_search q p 0 0 items)),
        Ok (snd (filter_search q p 0 0 items)))
  /\ (flattened <- Iterator.flat depth
                     {| ref := RGen (traced_source items) |} ;;
      Iterator.find (pure_callback p) flattened) []
     = flat_search p depth 0 (pulled_rows items)
  /\ (flattened <- Iterator.flatMap (traced_callback f) depth
                     {| ref := RGen (traced_source items) |} ;;
      Iterator.find (pure_callback p) flattened) []
     = flat_search p depth 0 (mapped_rows f 0 items)
  /\ (truthy (p (f x 0) 0) = true ->
      (mapped <- Iterator.map (traced_callback f)
                   {| ref := RGen (traced_source (x :: y :: rest)) |} ;;
       Iterator.find (pure_callback p) mapped) []
      = ([Pulled x; Called x 0], Ok (f x 0))).
Proof.
  repeat apply conj; try reflexivity.
  - unfold bind. rewrite map_constructs.
    unfold Iterator.find, bind, lift, Iterator.rawMap.
    cbn [ref get_iterator].
    rewrite (for_of_started _ (traced_source items)) by reflexivity.
    change (-1) with (0 - 1). now rewrite find_map_trace.
  - unfold bind. rewrite filter_constructs.
    unfold Iterator.find, bind, lift, Iterator.rawFilter.
    cbn [ref get_iterator].
    rewrite (for_of_started _ (traced_source items)) by reflexivity.
    change (-1) with (0 - 1). now rewrite find_filter_trace.
  - unfold bind. rewrite flat_constructs.
    unfold Iterator.find, bind, lift. cbn [ref get_iterator].
    rewrite (find_flat_trace p depth _ _ (-1) [] (emits_traced_source items)).
    change (-1 + 1) with 0. now destruct (flat_search p depth 0 (pulled_rows items)).
  - unfold bind. rewrite flatMap_constructs.
    unfold Iterator.find, bind, lift, Iterator.rawMap.
    cbn [ref get_iterator].
    rewrite (for_of_started _ (traced_source items)) by reflexivity.
    rewrite (find_flat_trace p depth _ _ (-1) [] (emits_mapped f items 0)).
    change (-1 + 1) with 0.
    now destruct (flat_search p depth 0 (mapped_rows f 0 items)).
  - intros Hfirst. unfold bind. rewrite map_constructs.
    unfold Iterator.find, bind, lift, Iterator.rawMap.
    cbn [ref get_iterator].
    rewrite (for_of_started _ (traced_source (x :: y :: rest))) by reflexivity.
    simpl. now rewrite Hfirst.
Qed.

Lemma lazy_chain_evaluates_on_demand_witness :
  truthy (VBool true) = true
  /\ (mapped <- Iterator.map (traced_callback (fun item _ => item))
                  {| ref := RGen (traced_source [num 5; num 6; num 7]) |} ;;
      Iterator.find (pure_callback (fun _ _ => VBool true)) mapped) []
     = ([Pulled (num 5); Called (num 5) 0], Ok (num 5)).
Proof.
  split; [reflexivity|].
  apply (lazy_chain_evaluates_on_demand unit
           (pure_callback (fun item _ => item)) 1 (wrap_array 1 []) tt
           (fun item _ => item) (fun _ _ => VBool true) (fun _ _ => VBool true)
           [] (num 5) (num 6) [num 7]).
  reflexivity.
Defined.

(** The searches of C5 on [[1, 2], [3, 4], [5]]: looking for 3 under
    [flat(1)] pulls the first two arrays and never the third; under
    [filter] keeping the elements from the second on, the search for the
    first kept element pulls two elements. *)
Example lazy_stages_stop_early :
  (flattened <- Iterator.flat 1
                  {| ref := RGen (traced_source
                                    [VArray 1 [num 1; num 2];
                                     VArray 2 [num 3; num 4];
                                     VArray 3 [num 5]]) |} ;;
   Iterator.find (pure_callback (equals (num 3))) flattened) []
  = ([Pulled (VArray 1 [num 1; num 2]); Pulled (VArray 2 [num 3; num 4])],
     Ok (num 3))
  /\ (kept <- Iterator.filter
                (traced_callback (fun _ index => VBool (1 <=? index)))
                {| ref := RGen (traced_source [num 7; num 8; num 9]) |} ;;
      Iterator.find (pure_callback (fun _ _ => VBool true)) kept) []
     = ([Pulled (num 7); Called (num 7) 0; Pulled (num 8); Called (num 8) 1],
        Ok (num 8)).
Proof. split; reflexivity. Qed.
